(** * Unsiming relay server: a shallow embedding of [server.ts]

    The development models the message relay of [server.ts]: the [messages]
    table with its [INSERT] and its two [SELECT]s, the process-wide
    [userSockets] map, and the three WebSocket callbacks ([connection],
    [message], [close]); and then the HTTP routes on the tables [users] and
    [contacts].

    Conventions.
    - A WebSocket object is identified by a [Handle] (object identity).
    - A field of a decoded frame is [None] when the key is absent from the
      JSON object (JavaScript [undefined]) and [Some v] when it is present
      with the type the wire format gives it: strings for the ids and the
      content, an integer for the timestamp.
    - The key [None] of [userSockets] is the JavaScript key [undefined],
      which [userSockets.set] receives when an auth frame has no [userId].
    - A column of a stored row is [None] when it holds [NULL].
      [db.prepare(..).run(..)] binds [undefined] as [NULL]; the insert raises
      a constraint error when the primary key is already present, and a
      [NULL] key is never present.  A comparison [column = ?] is not true of
      a [NULL] column.
    - [ORDER BY timestamp ASC] scans the table in rowid order, which is
      insertion order here since rows are never deleted, and the sort keeps
      rows with equal keys in scan order. *)

From Stdlib Require Import ZArith List Sorted Permutation.
From stdpp Require Import base strings gmap list fin_maps.
Import ListNotations.

Local Open Scope Z_scope.

(** ** The [messages] table *)

(** One row of [CREATE TABLE messages (id TEXT PRIMARY KEY, senderId TEXT,
    receiverId TEXT, content TEXT, timestamp INTEGER, status TEXT)].  No
    column is declared [NOT NULL]; [status] is only ever written with a
    string literal. *)
Record Message := mkMessage {
  m_id : option string;
  m_senderId : option string;
  m_receiverId : option string;
  m_content : option string;
  m_timestamp : option Z;
  m_status : string
}.

(** Exceptions that reach the [catch] of the message callback. *)
Inductive Error :=
| SyntaxError               (* JSON.parse on text that is not JSON *)
| TypeError                 (* property read on null *)
| SqliteConstraintPrimaryKey.

(** ** Frames *)

(** The object that [JSON.parse] returns, read through the keys the server
    looks at.  [p_type] is [None] as well when [type] is not a string. *)
Record Payload := mkPayload {
  p_type : option string;
  p_userId : option string;
  p_id : option string;
  p_senderId : option string;
  p_receiverId : option string;
  p_content : option string;
  p_timestamp : option Z
}.

(** What arrives on the socket: text that does not parse, the JSON literal
    [null], or a value whose properties can be read (a JSON number, string,
    boolean or array reads as an object without the keys). *)
Inductive Data :=
| Unparsable
| JsonNull
| JsonObject (p : Payload).

(** The frame pushed to the receiver:
    [{ type: 'message', senderId, receiverId, content, id, timestamp }].
    [JSON.stringify] leaves out a key whose value is [undefined]. *)
Record OutFrame := mkOutFrame {
  o_senderId : option string;
  o_receiverId : option string;
  o_content : option string;
  o_id : option string;
  o_timestamp : option Z
}.

(** ** Connections and server state *)

Definition Handle := nat.

Inductive ReadyState := CONNECTING | OPEN | CLOSING | CLOSED.

(** Per connection: the closure variable [currentUserId] ([None] is
    [null] or [undefined]) and the socket's [readyState]. *)
Record Conn := mkConn {
  c_currentUserId : option string;
  c_readyState : ReadyState
}.

Record State := mkState {
  messages : list Message;
  userSockets : gmap (option string) Handle;
  conns : gmap Handle Conn
}.

Definition init : State := mkState [] ∅ ∅.

Inductive Effect :=
| Send (to : Handle) (f : OutFrame)      (* receiverSocket.send(..) *)
| ConsoleError (e : Error)               (* console.error("WS Error:", e) *)
| ResJson (rows : list Message).         (* res.json(messages) *)

Definition currentUserId (st : State) (ws : Handle) : option string :=
  match conns st !! ws with
  | Some c => c_currentUserId c
  | None => None
  end.

Definition readyState (st : State) (ws : Handle) : ReadyState :=
  match conns st !! ws with
  | Some c => c_readyState c
  | None => CLOSED
  end.

Definition is_open (r : ReadyState) : bool :=
  match r with OPEN => true | _ => false end.

(** JavaScript truthiness of [currentUserId]: [null], [undefined] and the
    empty string are falsy. *)
Definition truthy (u : option string) : bool :=
  match u with
  | Some s => negb (String.eqb s "")
  | None => false
  end.

(** ** The callback monad: state, emitted effects, and exceptions

    A JavaScript exception does not undo the mutations made before it, so a
    computation returns the state it reached together with its outcome. *)

Definition Handler (A : Type) : Type :=
  State → State * list Effect * (Error + A).

Definition ret {A} (a : A) : Handler A := λ st, (st, [], inr a).

Definition throw {A} (e : Error) : Handler A := λ st, (st, [], inl e).

Definition bind {A B} (m : Handler A) (k : A → Handler B) : Handler B :=
  λ st,
    match m st with
    | (st1, out1, inl e) => (st1, out1, inl e)
    | (st1, out1, inr a) =>
        match k a st1 with
        | (st2, out2, r) => (st2, out1 ++ out2, r)
        end
    end.

Definition try_catch (m : Handler unit) (h : Error → Handler unit) : Handler unit :=
  λ st,
    match m st with
    | (st1, out1, inl e) =>
        match h e st1 with
        | (st2, out2, r) => (st2, out1 ++ out2, r)
        end
    | r => r
    end.

Definition get_state : Handler State := λ st, (st, [], inr st).

Definition modify (f : State → State) : Handler unit := λ st, (f st, [], inr tt).

Definition emit (e : Effect) : Handler unit := λ st, (st, [e], inr tt).

Definition when (b : bool) (m : Handler unit) : Handler unit :=
  if b then m else ret tt.

#[global] Instance handler_ret : MRet Handler := @ret.
#[global] Instance handler_bind : MBind Handler := λ A B k m, bind m k.

(** ** Database operations *)

(** Parameter binding of
    [.run(id, senderId, receiverId, content, timestamp, 'sent')]: an absent
    field is bound as [NULL], the status is the literal ['sent']. *)
Definition bind_params (p : Payload) : Message :=
  mkMessage (p_id p) (p_senderId p) (p_receiverId p) (p_content p)
            (p_timestamp p) "sent".

(** [column = ?] for a text column and a string argument. *)
Definition col_eq (column : option string) (arg : string) : bool :=
  match column with
  | Some s => String.eqb s arg
  | None => false
  end.

Definition has_id (db : list Message) (i : string) : bool :=
  existsb (λ m, col_eq (m_id m) i) db.

(** Whether a key value is already in the table: [NULL] never is. *)
Definition id_stored (db : list Message) (key : option string) : bool :=
  match key with
  | Some i => has_id db i
  | None => false
  end.

(** [INSERT INTO messages (..) VALUES (?, ?, ?, ?, ?, ?)] *)
Definition insert_message (db : list Message) (p : Payload) : Error + list Message :=
  let row := bind_params p in
  if id_stored db (m_id row) then inl SqliteConstraintPrimaryKey
  else inr (db ++ [row]).

(** The order of [ORDER BY] on a nullable integer column: [NULL] comes
    before every number. *)
Definition ts_leb (a b : option Z) : bool :=
  match a, b with
  | None, _ => true
  | Some _, None => false
  | Some x, Some y => x <=? y
  end.

(** [ORDER BY timestamp ASC]. *)
Fixpoint insert_row (r : Message) (l : list Message) : list Message :=
  match l with
  | [] => [r]
  | x :: l' =>
      if ts_leb (m_timestamp r) (m_timestamp x) then r :: x :: l'
      else x :: insert_row r l'
  end.

Fixpoint order_by_timestamp (l : list Message) : list Message :=
  match l with
  | [] => []
  | r :: l' => insert_row r (order_by_timestamp l')
  end.

(** [WHERE (senderId = ? AND receiverId = ?) OR (senderId = ? AND receiverId = ?)]
    with the arguments [(userId, otherId, otherId, userId)]. *)
Definition between (userId otherId : string) (m : Message) : bool :=
  (col_eq (m_senderId m) userId && col_eq (m_receiverId m) otherId)
  || (col_eq (m_senderId m) otherId && col_eq (m_receiverId m) userId).

(** [GET /api/messages/:userId/:otherId] *)
Definition get_messages (db : list Message) (userId otherId : string) : list Message :=
  order_by_timestamp (List.filter (between userId otherId) db).

(** [GET /api/export/:userId]:
    [SELECT * FROM messages WHERE senderId = ? OR receiverId = ?] *)
Definition get_export (db : list Message) (userId : string) : list Message :=
  List.filter (λ m, col_eq (m_senderId m) userId || col_eq (m_receiverId m) userId) db.

(** ** The WebSocket callbacks *)

Definition set_messages (db : list Message) (st : State) : State :=
  mkState db (userSockets st) (conns st).

Definition set_userSockets (r : gmap (option string) Handle) (st : State) : State :=
  mkState (messages st) r (conns st).

Definition set_conn (ws : Handle) (c : Conn) (st : State) : State :=
  mkState (messages st) (userSockets st) (<[ws := c]> (conns st)).

(** [JSON.parse(data.toString())] followed by the first property read. *)
Definition json_parse (d : Data) : Handler Payload :=
  match d with
  | Unparsable => throw SyntaxError
  | JsonNull => throw TypeError
  | JsonObject p => ret p
  end.

Definition type_is (p : Payload) (t : string) : bool :=
  match p_type p with
  | Some s => String.eqb s t
  | None => false
  end.

(** [currentUserId = payload.userId; userSockets.set(currentUserId!, ws)] *)
Definition auth (ws : Handle) (p : Payload) : Handler unit :=
  modify (λ st,
    set_userSockets (<[p_userId p := ws]> (userSockets st))
      (set_conn ws (mkConn (p_userId p) (readyState st ws)) st)).

(** [db.prepare("INSERT ..").run(..)] *)
Definition db_insert (p : Payload) : Handler unit :=
  λ st,
    match insert_message (messages st) p with
    | inl e => (st, [], inl e)
    | inr db' => (set_messages db' st, [], inr tt)
    end.

Definition payload_frame (p : Payload) : OutFrame :=
  mkOutFrame (p_senderId p) (p_receiverId p) (p_content p) (p_id p) (p_timestamp p).

(** The lookup of the receiver and the push, lines 139 to 142. *)
Definition relay (p : Payload) : Handler unit :=
  st ← get_state;
  match userSockets st !! p_receiverId p with
  | Some receiverSocket =>
      when (is_open (readyState st receiverSocket))
           (emit (Send receiverSocket (payload_frame p)))
  | None => ret tt
  end.

(** The body of the [try] block. *)
Definition message_body (ws : Handle) (d : Data) : Handler unit :=
  p ← json_parse d;
  when (type_is p "auth") (auth ws p);;
  when (type_is p "message") (db_insert p;; relay p).

(** [ws.on("message", (data) => { try { .. } catch (e) { console.error(..) } })] *)
Definition on_message (ws : Handle) (d : Data) : Handler unit :=
  try_catch (message_body ws d) (λ e, emit (ConsoleError e)).

(** [ws.on("close", () => { if (currentUserId) userSockets.delete(currentUserId); })];
    the socket is [CLOSED] when the callback runs. *)
Definition on_close (ws : Handle) : Handler unit :=
  modify (λ st,
    let st1 := set_conn ws (mkConn (currentUserId st ws) CLOSED) st in
    if truthy (currentUserId st ws)
    then set_userSockets (delete (currentUserId st ws) (userSockets st1)) st1
    else st1).

(** [wss.on("connection", (ws) => { let currentUserId = null; .. })] *)
Definition on_connection (ws : Handle) : Handler unit :=
  modify (set_conn ws (mkConn None OPEN)).

(** ** Events and runs *)

Inductive Event :=
| Connection (ws : Handle)
| WsMessage (ws : Handle) (d : Data)
| WsClosing (ws : Handle)            (* the closing handshake has started *)
| WsClose (ws : Handle)
| GetMessages (userId otherId : string)
| GetExport (userId : string).

Definition handler_of (ev : Event) : Handler unit :=
  match ev with
  | Connection ws => on_connection ws
  | WsMessage ws d => on_message ws d
  | WsClosing ws =>
      modify (λ st, set_conn ws (mkConn (currentUserId st ws) CLOSING) st)
  | WsClose ws => on_close ws
  | GetMessages u o =>
      st ← get_state; emit (ResJson (get_messages (messages st) u o))
  | GetExport u =>
      st ← get_state; emit (ResJson (get_export (messages st) u))
  end.

Definition step (st : State) (ev : Event) : State * list Effect :=
  match handler_of ev st with
  | (st', out, _) => (st', out)
  end.

Fixpoint run (st : State) (evs : list Event) : State * list Effect :=
  match evs with
  | [] => (st, [])
  | ev :: evs' =>
      match step st ev with
      | (st1, out1) =>
          match run st1 evs' with
          | (st2, out2) => (st2, out1 ++ out2)
          end
      end
  end.

(** The frames pushed to sockets among the effects. *)
Definition sends (out : list Effect) : list (Handle * OutFrame) :=
  flat_map (λ e, match e with Send h f => [(h, f)] | _ => [] end) out.

(** The exceptions logged among the effects. *)
Definition errors (out : list Effect) : list Error :=
  flat_map (λ e, match e with ConsoleError x => [x] | _ => [] end) out.

(** The registry operations of the specification, as the server has them. *)
Definition lookup (st : State) (userId : string) : option Handle :=
  userSockets st !! Some userId.

Definition auth_frame (userId : string) : Data :=
  JsonObject (mkPayload (Some "auth"%string) (Some userId) None None None None None).

Definition message_frame (i s r c : string) (t : Z) : Data :=
  JsonObject (mkPayload (Some "message"%string) None (Some i) (Some s) (Some r) (Some c) (Some t)).

(** ** Vocabulary of the properties *)

(** The effects of lines 139 to 142 for payload [p] in state [st]: one push
    when the receiver is registered and its socket is open. *)
Definition pushes (st : State) (p : Payload) : list Effect :=
  match userSockets st !! p_receiverId p with
  | Some receiverSocket =>
      if is_open (readyState st receiverSocket)
      then [Send receiverSocket (payload_frame p)]
      else []
  | None => []
  end.

(** Timestamp order of two rows, [NULL] first, and the rows of one
    timestamp. *)
Definition ts_le (a b : Message) : Prop :=
  match m_timestamp a, m_timestamp b with
  | None, _ => True
  | Some _, None => False
  | Some x, Some y => x <= y
  end.

Definition at_ts (t : option Z) (m : Message) : bool :=
  bool_decide (m_timestamp m = t).

(** Number of stored rows with a given id. *)
Definition count_id (db : list Message) (i : string) : nat :=
  length (List.filter (λ m, col_eq (m_id m) i) db).

(** The ids of the stored rows that have one. *)
Definition ids (db : list Message) : list string := omap m_id db.

(** Whether the decoded frame is an object whose [type] is [t]. *)
Definition frame_type_is (d : Data) (t : string) : bool :=
  match d with
  | JsonObject p => type_is p t
  | _ => false
  end.

(** A callback run that raised nothing. *)
Definition succeeds (out : list Effect) : Prop := errors out = [].

(** Some frame was sent to socket [ws]. *)
Definition reported_to (ws : Handle) (out : list Effect) : Prop :=
  ∃ f, In (ws, f) (sends out).

(** The state in which connection [ws] has [cu] as its [currentUserId] and
    everything else is as in [st]. *)
Definition with_currentUserId (ws : Handle) (cu : option string) (st : State) : State :=
  set_conn ws (mkConn cu (readyState st ws)) st.

(** ** Accounts and contacts: the HTTP routes

    The routes of [server.ts] on the tables [users] and [contacts].  A body
    field is [None] when the key is absent from the JSON body; it is then
    bound as [NULL].  The id that [/api/register] draws with [Math.random]
    and the time it reads with [Date.now] are inputs of the request. *)

(** One row of [CREATE TABLE users (id TEXT PRIMARY KEY, username TEXT UNIQUE,
    email TEXT UNIQUE, password TEXT, avatar TEXT, theme TEXT DEFAULT 'dark',
    lastSeen INTEGER)].  The id and [lastSeen] are always written with a
    value; the other columns can hold [NULL]. *)
Record User := mkUser {
  u_id : string;
  u_username : option string;
  u_email : option string;
  u_password : option string;
  u_avatar : option string;
  u_theme : option string;
  u_lastSeen : Z
}.

(** [users], and [contacts] with its rows [(userId, contactId)] and
    [PRIMARY KEY (userId, contactId)]. *)
Record Tables := mkTables {
  users : list User;
  contacts : list (option string * option string)
}.

Definition no_tables : Tables := mkTables [] [].

(** A value in a JSON answer: a key left out because the value was
    [undefined], [null], or a string. *)
Inductive Field :=
| Omitted
| Null
| Text (s : string).

Definition of_body (field : option string) : Field :=
  match field with
  | Some s => Text s
  | None => Omitted
  end.

Definition of_column (column : option string) : Field :=
  match column with
  | Some s => Text s
  | None => Null
  end.

(** [{ id, username, email, theme }] *)
Record PublicUser := mkPublicUser {
  pu_id : string;
  pu_username : Field;
  pu_email : Field;
  pu_theme : Field
}.

(** A row of [SELECT u.id, u.username, u.email, u.avatar, u.lastSeen]. *)
Record ContactInfo := mkContactInfo {
  ci_id : string;
  ci_username : option string;
  ci_email : option string;
  ci_avatar : option string;
  ci_lastSeen : Z
}.

Inductive Response :=
| JsonSuccessUser (user : PublicUser)       (* { success: true, user } *)
| JsonSuccess                               (* { success: true } *)
| JsonError (status : nat) (error : string) (* res.status(..).json({ error }) *)
| JsonContacts (rows : list ContactInfo).

Definition set_users (us : list User) (t : Tables) : Tables :=
  mkTables us (contacts t).

Definition set_contacts (cs : list (option string * option string)) (t : Tables) : Tables :=
  mkTables (users t) cs.

(** Equality of two SQL values as a condition or as a key comparison: not
    true as soon as one of them is [NULL]. *)
Definition sql_eq (a b : option string) : bool :=
  match a, b with
  | Some x, Some y => String.eqb x y
  | _, _ => false
  end.

(** Parameter binding of [.run(id, username, email, password, Date.now())];
    [avatar] is not given and [theme] takes its default. *)
Definition bind_user (id : string) (username email password : option string)
    (now : Z) : User :=
  mkUser id username email password None (Some "dark"%string) now.

(** The primary key and the two [UNIQUE] columns. *)
Definition user_conflicts (us : list User) (row : User) : bool :=
  existsb (λ u, String.eqb (u_id u) (u_id row)
                || sql_eq (u_username u) (u_username row)
                || sql_eq (u_email u) (u_email row)) us.

(** [INSERT INTO users (id, username, email, password, lastSeen) VALUES (..)];
    [None] when [run] throws. *)
Definition insert_user (us : list User) (row : User) : option (list User) :=
  if user_conflicts us row then None else Some (us ++ [row]).

(** [app.post("/api/register", ..)] *)
Definition api_register (id : string) (now : Z)
    (username email password : option string) (t : Tables) : Tables * Response :=
  match insert_user (users t) (bind_user id username email password now) with
  | Some us' =>
      (set_users us' t,
       JsonSuccessUser (mkPublicUser id (of_body username) (of_body email) (Text "dark")))
  | None => (t, JsonError 400 "Username or email already exists")
  end.

(** [SELECT * FROM users WHERE email = ? AND password = ?] with [.get]. *)
Definition select_login (us : list User) (email password : option string) : option User :=
  find (λ u, sql_eq (u_email u) email && sql_eq (u_password u) password) us.

Definition public (u : User) : PublicUser :=
  mkPublicUser (u_id u) (of_column (u_username u)) (of_column (u_email u))
               (of_column (u_theme u)).

(** [app.post("/api/login", ..)] *)
Definition api_login (email password : option string) (t : Tables) : Response :=
  match select_login (users t) email password with
  | Some user => JsonSuccessUser (public user)
  | None => JsonError 401 "Invalid credentials"
  end.

Definition has_contact (cs : list (option string * option string))
    (userId contactId : option string) : bool :=
  existsb (λ c, sql_eq (fst c) userId && sql_eq (snd c) contactId) cs.

(** [INSERT INTO contacts (userId, contactId) VALUES (?, ?)];
    [None] when [run] throws on the primary key. *)
Definition insert_contact (cs : list (option string * option string))
    (userId contactId : option string)
    : option (list (option string * option string)) :=
  if has_contact cs userId contactId then None
  else Some (cs ++ [(userId, contactId)]).

(** [contact.id === userId] *)
Definition same_id (id : string) (userId : option string) : bool :=
  match userId with
  | Some uid => String.eqb id uid
  | None => false
  end.

(** [app.post("/api/contacts/add", ..)]: the two inserts are in one [try]
    and are not undone when the second one throws. *)
Definition api_contacts_add (userId contactEmail : option string) (t : Tables)
    : Tables * Response :=
  match find (λ u, sql_eq (u_email u) contactEmail) (users t) with
  | None => (t, JsonError 404 "User not found")
  | Some contact =>
      if same_id (u_id contact) userId
      then (t, JsonError 400 "Cannot add yourself")
      else
        match insert_contact (contacts t) userId (Some (u_id contact)) with
        | None => (t, JsonError 400 "Contact already added")
        | Some cs1 =>
            match insert_contact cs1 (Some (u_id contact)) userId with
            | None => (set_contacts cs1 t, JsonError 400 "Contact already added")
            | Some cs2 => (set_contacts cs2 t, JsonSuccess)
            end
        end
  end.

Definition contact_info (u : User) : ContactInfo :=
  mkContactInfo (u_id u) (u_username u) (u_email u) (u_avatar u) (u_lastSeen u).

(** The order of the primary-key index of [contacts] on [contactId]:
    [NULL] first, then the strings byte by byte. *)
Definition key_leb (a b : option string) : bool :=
  match a, b with
  | None, _ => true
  | Some _, None => false
  | Some x, Some y => String.leb x y
  end.

Fixpoint insert_contact_row (c : option string * option string)
    (l : list (option string * option string)) : list (option string * option string) :=
  match l with
  | [] => [c]
  | x :: l' =>
      if key_leb (snd c) (snd x) then c :: x :: l'
      else x :: insert_contact_row c l'
  end.

Fixpoint by_contactId (l : list (option string * option string))
    : list (option string * option string) :=
  match l with
  | [] => []
  | c :: l' => insert_contact_row c (by_contactId l')
  end.

(** [app.get("/api/contacts/:userId", ..)]:
    [FROM users u JOIN contacts c ON u.id = c.contactId WHERE c.userId = ?].
    The rows of [userId] are read through the primary-key index of
    [contacts], in the order of [contactId], and each is joined with the
    user of that id. *)
Definition get_contacts (t : Tables) (userId : string) : list ContactInfo :=
  flat_map
    (λ c, map contact_info
            (List.filter (λ u, sql_eq (Some (u_id u)) (snd c)) (users t)))
    (by_contactId (List.filter (λ c, col_eq (fst c) userId) (contacts t))).

Definition set_theme (theme : option string) (u : User) : User :=
  mkUser (u_id u) (u_username u) (u_email u) (u_password u) (u_avatar u)
         theme (u_lastSeen u).

(** [app.post("/api/user/theme", ..)]:
    [UPDATE users SET theme = ? WHERE id = ?]; an absent [userId] matches no
    row, an absent [theme] sets [NULL]. *)
Definition api_theme (userId theme : option string) (t : Tables) : Tables * Response :=
  (match userId with
   | Some uid =>
       set_users
         (map (λ u, if String.eqb (u_id u) uid then set_theme theme u else u) (users t))
         t
   | None => t
   end,
   JsonSuccess).

Inductive Request :=
| PostRegister (generatedId : string) (now : Z) (username email password : option string)
| PostLogin (email password : option string)
| PostContactsAdd (userId contactEmail : option string)
| GetContacts (userId : string)
| PostTheme (userId theme : option string).

Definition respond (t : Tables) (r : Request) : Tables * Response :=
  match r with
  | PostRegister id now n e pw => api_register id now n e pw t
  | PostLogin e pw => (t, api_login e pw t)
  | PostContactsAdd uid e => api_contacts_add uid e t
  | GetContacts uid => (t, JsonContacts (get_contacts t uid))
  | PostTheme uid th => api_theme uid th t
  end.

Fixpoint serve (t : Tables) (rs : list Request) : Tables :=
  match rs with
  | [] => t
  | r :: rs' => serve (fst (respond t r)) rs'
  end.

(** The three uniqueness constraints of [users]; a [UNIQUE] column can hold
    [NULL] in several rows. *)
Definition users_unique (us : list User) : Prop :=
  NoDup (map u_id us) ∧ NoDup (omap u_username us) ∧ NoDup (omap u_email us).

(** [contacts] holds every pair in both directions and no pair of a user
    with itself. *)
Definition contacts_mutual (cs : list (option string * option string)) : Prop :=
  ∀ a b, In (a, b) cs → In (b, a) cs.

Definition contacts_irreflexive (cs : list (option string * option string)) : Prop :=
  ∀ a, ¬ In (a, a) cs.

(** The rows of [contacts] without a [NULL], to which the primary key
    applies. *)
Definition keyed (c : option string * option string) : bool :=
  match c with
  | (Some _, Some _) => true
  | _ => false
  end.

(** A stored user stands in the way of a new row: same id, or same user
    name, or same email, where a [NULL] collides with nothing. *)
Definition collides (u row : User) : Prop :=
  u_id u = u_id row
  ∨ (∃ n, u_username u = Some n ∧ u_username row = Some n)
  ∨ (∃ e, u_email u = Some e ∧ u_email row = Some e).

(** A user row without its theme. *)
Definition account_of (u : User)
    : string * option string * option string * option string * option string * Z :=
  (u_id u, u_username u, u_email u, u_password u, u_avatar u, u_lastSeen u).

(** * Properties *)

(** ** The callback on decoded frames *)

Lemma type_message_not_auth (p : Payload) :
  type_is p "message" = true → type_is p "auth" = false.
Proof.
  unfold type_is. destruct (p_type p) as [s|]; [|discriminate].
  intros H. apply String.eqb_eq in H. subst s. reflexivity.
Qed.

Lemma readyState_set_messages (db : list Message) (st : State) (h : Handle) :
  readyState (set_messages db st) h = readyState st h.
Proof. reflexivity. Qed.

(** A message-typed frame either is rejected by the insert, which is logged,
    or is appended to the table and pushed to the receiver's socket. *)
Lemma step_message (st : State) (ws : Handle) (p : Payload) :
  type_is p "message" = true →
  step st (WsMessage ws (JsonObject p)) =
    match insert_message (messages st) p with
    | inl e => (st, [ConsoleError e])
    | inr db' => (set_messages db' st, pushes st p)
    end.
Proof.
  intros Hm. pose proof (type_message_not_auth p Hm) as Ha.
  unfold step, handler_of, on_message, try_catch, message_body.
  unfold mbind, handler_bind, bind, json_parse, mret, handler_ret, ret.
  rewrite Ha, Hm. cbn [when].
  unfold ret, db_insert, relay, mbind, handler_bind, bind, get_state.
  destruct (insert_message (messages st) p) as [e|db'] eqn:Hi; cbn.
  - reflexivity.
  - unfold pushes, when, emit, ret. cbn.
    destruct (userSockets st !! p_receiverId p) as [h|]; [|reflexivity].
    rewrite readyState_set_messages.
    destruct (is_open (readyState st h)); reflexivity.
Qed.

(** A frame that is neither auth-typed nor message-typed changes nothing;
    undecodable data is logged. *)
Lemma step_other_object (st : State) (ws : Handle) (p : Payload) :
  type_is p "auth" = false → type_is p "message" = false →
  step st (WsMessage ws (JsonObject p)) = (st, []).
Proof.
  intros Ha Hm.
  unfold step, handler_of, on_message, try_catch, message_body.
  unfold mbind, handler_bind, bind, json_parse, mret, handler_ret, ret.
  rewrite Ha, Hm. reflexivity.
Qed.

Lemma step_unparsable (st : State) (ws : Handle) :
  step st (WsMessage ws Unparsable) = (st, [ConsoleError SyntaxError]).
Proof. reflexivity. Qed.

Lemma step_json_null (st : State) (ws : Handle) :
  step st (WsMessage ws JsonNull) = (st, [ConsoleError TypeError]).
Proof. reflexivity. Qed.

Lemma step_auth (st : State) (ws : Handle) (p : Payload) :
  type_is p "auth" = true →
  step st (WsMessage ws (JsonObject p)) =
    (set_userSockets (<[p_userId p := ws]> (userSockets st))
       (set_conn ws (mkConn (p_userId p) (readyState st ws)) st), []).
Proof.
  intros Ha.
  assert (Hm : type_is p "message" = false).
  { unfold type_is in *. destruct (p_type p) as [s|]; [|discriminate].
    apply String.eqb_eq in Ha. subst s. reflexivity. }
  unfold step, handler_of, on_message, try_catch, message_body.
  unfold mbind, handler_bind, bind, json_parse, mret, handler_ret, ret.
  rewrite Ha, Hm. reflexivity.
Qed.

(** ** The history query *)

Lemma ts_leb_true (a b : Message) :
  ts_leb (m_timestamp a) (m_timestamp b) = true → ts_le a b.
Proof.
  unfold ts_le. destruct (m_timestamp a), (m_timestamp b); cbn;
    try discriminate; auto. apply Z.leb_le.
Qed.

Lemma ts_leb_false (a b : Message) :
  ts_leb (m_timestamp a) (m_timestamp b) = false →
  ts_le b a ∧ m_timestamp a ≠ m_timestamp b.
Proof.
  unfold ts_le. destruct (m_timestamp a), (m_timestamp b); cbn;
    try discriminate; auto.
  intros H. apply Z.leb_gt in H. split; [lia|]. intros [= ->]. lia.
Qed.

Lemma ts_le_trans (a b c : Message) : ts_le a b → ts_le b c → ts_le a c.
Proof.
  unfold ts_le. destruct (m_timestamp a), (m_timestamp b), (m_timestamp c);
    cbn; try tauto. lia.
Qed.

Lemma insert_row_perm (r : Message) (l : list Message) :
  Permutation (insert_row r l) (r :: l).
Proof.
  induction l as [|x l IH]; cbn; [reflexivity|].
  destruct (ts_leb (m_timestamp r) (m_timestamp x)); [reflexivity|].
  rewrite IH. apply perm_swap.
Qed.

Lemma order_by_timestamp_perm (l : list Message) :
  Permutation (order_by_timestamp l) l.
Proof.
  induction l as [|r l IH]; cbn; [reflexivity|].
  rewrite insert_row_perm. now apply perm_skip.
Qed.

Lemma insert_row_sorted (r : Message) (l : list Message) :
  StronglySorted ts_le l → StronglySorted ts_le (insert_row r l).
Proof.
  induction 1 as [|x l Hs IH Hx]; cbn.
  - repeat constructor.
  - destruct (ts_leb (m_timestamp r) (m_timestamp x)) eqn:Hle.
    + apply ts_leb_true in Hle.
      constructor; [constructor; assumption|].
      constructor; [exact Hle|].
      eapply Forall_impl; [exact Hx|].
      intros y Hy. now apply (ts_le_trans r x y).
    + apply ts_leb_false in Hle as [Hle _].
      constructor; [exact IH|].
      eapply Permutation_Forall; [symmetry; apply insert_row_perm|].
      constructor; [exact Hle|exact Hx].
Qed.

Lemma order_by_timestamp_sorted (l : list Message) :
  StronglySorted ts_le (order_by_timestamp l).
Proof.
  induction l as [|r l IH]; cbn; [constructor|].
  now apply insert_row_sorted.
Qed.

(** Rows of one timestamp keep their relative order. *)
Lemma insert_row_at_ts (t : option Z) (r : Message) (l : list Message) :
  List.filter (at_ts t) (insert_row r l) = List.filter (at_ts t) (r :: l).
Proof.
  induction l as [|x l IH]; [reflexivity|].
  cbn [insert_row].
  destruct (ts_leb (m_timestamp r) (m_timestamp x)) eqn:Hle; [reflexivity|].
  apply ts_leb_false in Hle as [_ Hne].
  cbn [List.filter] in *. rewrite IH. unfold at_ts.
  repeat case_bool_decide; try reflexivity. congruence.
Qed.

Lemma order_by_timestamp_at_ts (t : option Z) (l : list Message) :
  List.filter (at_ts t) (order_by_timestamp l) = List.filter (at_ts t) l.
Proof.
  induction l as [|r l IH]; [reflexivity|].
  cbn [order_by_timestamp]. rewrite insert_row_at_ts.
  cbn [List.filter]. now rewrite IH.
Qed.

Lemma between_sym (a b : string) (m : Message) :
  between a b m = between b a m.
Proof. unfold between. apply orb_comm. Qed.

(** C3. The history query returns the stored messages of the pair, each
    once, in non-decreasing timestamp order whatever the order of the
    inserts was, and messages of equal timestamp in the order of their
    inserts. *)
Theorem history_ordered (db : list Message) (userId otherId : string) :
  Permutation (get_messages db userId otherId)
              (List.filter (between userId otherId) db)
  ∧ StronglySorted ts_le (get_messages db userId otherId)
  ∧ ∀ t : option Z,
      List.filter (at_ts t) (get_messages db userId otherId)
      = List.filter (at_ts t) (List.filter (between userId otherId) db).
Proof.
  unfold get_messages. split; [|split].
  - apply order_by_timestamp_perm.
  - apply order_by_timestamp_sorted.
  - intros t. apply order_by_timestamp_at_ts.
Qed.

(** C8. The history query is symmetric in its two user ids: the same rows
    in the same order, so the same response. *)
Theorem history_symmetric (st : State) (a b : string) :
  get_messages (messages st) a b = get_messages (messages st) b a
  ∧ step st (GetMessages a b) = step st (GetMessages b a).
Proof.
  assert (H : get_messages (messages st) a b = get_messages (messages st) b a).
  { unfold get_messages. f_equal. apply List.filter_ext.
    intros m. apply between_sym. }
  split; [exact H|].
  unfold step, handler_of, mbind, handler_bind, bind, get_state, emit.
  now rewrite H.
Qed.

(** ** The table only grows, and only by rows of status ['sent'] *)

Lemma insert_message_inr (db db' : list Message) (p : Payload) :
  insert_message db p = inr db' →
  id_stored db (p_id p) = false ∧ db' = db ++ [bind_params p].
Proof.
  unfold insert_message. cbn.
  destruct (id_stored db (p_id p)); [discriminate|].
  intros [= <-]. auto.
Qed.

Lemma insert_message_fresh (db : list Message) (p : Payload) :
  id_stored db (p_id p) = false →
  insert_message db p = inr (db ++ [bind_params p]).
Proof. unfold insert_message. cbn. now intros ->. Qed.

Lemma insert_message_duplicate (db : list Message) (p : Payload) (i : string) :
  p_id p = Some i → has_id db i = true →
  insert_message db p = inl SqliteConstraintPrimaryKey.
Proof. intros Hi Hd. unfold insert_message. cbn. rewrite Hi. cbn. now rewrite Hd. Qed.

Lemma type_cases (p : Payload) :
  {type_is p "message" = true}
  + {type_is p "auth" = true}
  + {type_is p "auth" = false ∧ type_is p "message" = false}.
Proof.
  destruct (type_is p "message") eqn:Hm; [left; left; reflexivity|].
  destruct (type_is p "auth") eqn:Ha; [left; right; reflexivity|].
  right. split; reflexivity.
Qed.

Lemma step_grows (st : State) (ev : Event) :
  ∃ new, messages (fst (step st ev)) = messages st ++ new
         ∧ Forall (λ m, m_status m = "sent"%string) new.
Proof.
  assert (Hsame : ∀ st', messages st' = messages st →
            ∃ new, messages st' = messages st ++ new
                   ∧ Forall (λ m, m_status m = "sent"%string) new).
  { intros st' ->. exists []. rewrite app_nil_r. split; [reflexivity|constructor]. }
  destruct ev as [ws|ws d|ws|ws|u o|u]; try (apply Hsame; reflexivity).
  - destruct d as [| |p]; try (apply Hsame; reflexivity).
    destruct (type_cases p) as [[Hm|Ha]|[Ha Hm]].
    + rewrite (step_message _ _ _ Hm).
      destruct (insert_message (messages st) p) as [e|db'] eqn:Hi.
      * apply Hsame. reflexivity.
      * apply insert_message_inr in Hi as (_ & ->).
        exists [bind_params p]. split; [reflexivity|].
        constructor; [reflexivity|constructor].
    + rewrite (step_auth _ _ _ Ha). apply Hsame. reflexivity.
    + rewrite (step_other_object _ _ _ Ha Hm). apply Hsame. reflexivity.
  - apply Hsame. unfold step, handler_of, on_close, modify. cbn.
    destruct (truthy (currentUserId st ws)); reflexivity.
Qed.

Lemma run_cons (st : State) (ev : Event) (evs : list Event) :
  fst (run st (ev :: evs)) = fst (run (fst (step st ev)) evs).
Proof.
  cbn [run]. destruct (step st ev) as [st1 out1]. cbn [fst].
  now destruct (run st1 evs).
Qed.

Lemma run_grows (st : State) (evs : list Event) :
  ∃ new, messages (fst (run st evs)) = messages st ++ new
         ∧ Forall (λ m, m_status m = "sent"%string) new.
Proof.
  revert st. induction evs as [|ev evs IH]; intros st.
  - exists []. cbn. rewrite app_nil_r. split; [reflexivity|constructor].
  - rewrite run_cons.
    destruct (step_grows st ev) as (new1 & H1 & Hs1).
    destruct (IH (fst (step st ev))) as (new2 & H2 & Hs2).
    exists (new1 ++ new2). split.
    + rewrite H2, H1. symmetry. apply app_assoc.
    + apply Forall_app. split; assumption.
Qed.

(** C7. Whatever sequence of operations the server executes, the rows that
    were stored before are all still there, unchanged and in place, and
    every row that was added has status ['sent']. *)
Theorem status_always_sent (st : State) (evs : list Event) :
  ∃ new, messages (fst (run st evs)) = messages st ++ new
         ∧ Forall (λ m, m_status m = "sent"%string) new.
Proof. exact (run_grows st evs). Qed.

(** ** The registry *)

Lemma auth_frame_step (st : State) (ws : Handle) (u : string) :
  step st (WsMessage ws (auth_frame u)) =
    (set_userSockets (<[Some u := ws]> (userSockets st))
       (set_conn ws (mkConn (Some u) (readyState st ws)) st), []).
Proof. unfold auth_frame. now rewrite step_auth. Qed.

Lemma truthy_nonempty (u : string) : u ≠ ""%string → truthy (Some u) = true.
Proof.
  intros Hu. cbn. destruct (String.eqb u "") eqn:E; [|reflexivity].
  now apply String.eqb_eq in E.
Qed.

(** C1, as the server has it. For a non-empty user id [u] and distinct
    sockets [h1], [h2]: after [h1] and then [h2] have authenticated as [u],
    the lookup of [u] gives [h2]; the close of [h1] then deletes the entry
    of [u] without looking at the socket stored there, so the lookup gives
    nothing. *)
Theorem close_deletes_by_user_id (st : State) (u : string) (h1 h2 : Handle) :
  u ≠ ""%string → h1 ≠ h2 →
  let st1 := fst (step st (WsMessage h1 (auth_frame u))) in
  let st2 := fst (step st1 (WsMessage h2 (auth_frame u))) in
  lookup st2 u = Some h2
  ∧ lookup (fst (step st2 (WsClose h1))) u = None.
Proof.
  intros Hu Hne. cbn zeta. rewrite !auth_frame_step. cbn [fst].
  split.
  - unfold lookup. cbn. apply lookup_insert_eq.
  - unfold step, handler_of, on_close, modify. cbn [fst].
    match goal with
    | |- context [truthy (currentUserId ?s h1)] =>
        assert (Hc : currentUserId s h1 = Some u)
    end.
    { unfold currentUserId. cbn.
      rewrite lookup_insert_ne by congruence.
      now rewrite lookup_insert_eq. }
    rewrite Hc, (truthy_nonempty u Hu).
    unfold lookup. cbn. apply lookup_delete_eq.
Qed.

Lemma close_deletes_by_user_id_witness :
  let st1 := fst (step init (WsMessage 1%nat (auth_frame "a1"))) in
  let st2 := fst (step st1 (WsMessage 2%nat (auth_frame "a1"))) in
  lookup st2 "a1" = Some 2%nat
  ∧ lookup (fst (step st2 (WsClose 1%nat))) "a1" = None.
Proof.
  apply (close_deletes_by_user_id init "a1" 1%nat 2%nat); [discriminate|lia].
Defined.

(** C1 as the specification words it does not hold: the close of the first
    socket is not a no-op, the entry of the second socket is gone. *)
Lemma close_of_old_socket_evicts_new :
  let st := fst (run init [Connection 1%nat; Connection 2%nat;
                           WsMessage 1%nat (auth_frame "a1");
                           WsMessage 2%nat (auth_frame "a1")]) in
  lookup st "a1" = Some 2%nat
  ∧ lookup (fst (step st (WsClose 1%nat))) "a1" ≠ Some 2%nat.
Proof. split; [vm_compute; reflexivity | vm_compute; discriminate]. Qed.

(** ** Sending the same id twice *)

Lemma has_id_app (db1 db2 : list Message) (i : string) :
  has_id (db1 ++ db2) i = has_id db1 i || has_id db2 i.
Proof. apply existsb_app. Qed.

Lemma count_id_app (db1 db2 : list Message) (i : string) :
  count_id (db1 ++ db2) i = (count_id db1 i + count_id db2 i)%nat.
Proof. unfold count_id. now rewrite List.filter_app, length_app. Qed.

Lemma count_id_absent (db : list Message) (i : string) :
  has_id db i = false → count_id db i = 0%nat.
Proof.
  unfold has_id, count_id. induction db as [|x db IH]; [reflexivity|].
  cbn. destruct (col_eq (m_id x) i); [discriminate|]. exact IH.
Qed.

Lemma col_eq_Some (column : option string) (i : string) :
  col_eq column i = true ↔ column = Some i.
Proof.
  destruct column as [s|]; cbn; [|split; discriminate].
  rewrite String.eqb_eq. split; congruence.
Qed.

Lemma has_id_ids (db : list Message) (i : string) :
  has_id db i = true ↔ i ∈ ids db.
Proof.
  unfold has_id, ids. rewrite existsb_exists, list_elem_of_omap. split.
  - intros (m & Hm & E). exists m. split; [now apply list_elem_of_In|].
    now apply col_eq_Some.
  - intros (m & Hm & E). exists m. split; [now apply list_elem_of_In|].
    now apply col_eq_Some.
Qed.

Lemma count_id_present (db : list Message) (i : string) :
  NoDup (ids db) → has_id db i = true → count_id db i = 1%nat.
Proof.
  induction db as [|x db IH]; [discriminate|].
  intros Hnd Hin.
  change (count_id (x :: db) i) with (count_id ([x] ++ db) i).
  rewrite count_id_app.
  change (has_id (x :: db) i) with (col_eq (m_id x) i || has_id db i) in Hin.
  unfold count_id at 1. cbn [List.filter].
  unfold ids in Hnd. cbn [omap list_omap] in Hnd.
  destruct (col_eq (m_id x) i) eqn:E.
  - apply col_eq_Some in E. rewrite E in Hnd. cbn in Hnd.
    apply NoDup_cons in Hnd as [Hx Hnd].
    destruct (has_id db i) eqn:Hd.
    + exfalso. apply Hx. now apply has_id_ids.
    + now rewrite count_id_absent.
  - cbn in Hin |- *. apply IH; [|exact Hin].
    destruct (m_id x); [|exact Hnd].
    cbn in Hnd. now apply NoDup_cons in Hnd as [_ Hnd].
Qed.

Lemma ids_snoc (db : list Message) (m : Message) :
  ids (db ++ [m]) = ids db ++ match m_id m with Some i => [i] | None => [] end.
Proof. unfold ids. rewrite omap_app. cbn. now destruct (m_id m). Qed.

(** The primary key: the ids that are not [NULL] stay unique under every
    operation. *)
Lemma step_ids_unique (st : State) (ev : Event) :
  NoDup (ids (messages st)) → NoDup (ids (messages (fst (step st ev)))).
Proof.
  intros Hnd.
  destruct (step_grows st ev) as (new & Hnew & _).
  destruct ev as [ws|ws d|ws|ws|u o|u]; try exact Hnd.
  - destruct d as [| |p]; try exact Hnd.
    destruct (type_cases p) as [[Hm|Ha]|[Ha Hm]].
    + rewrite (step_message _ _ _ Hm).
      destruct (insert_message (messages st) p) as [e|db'] eqn:Hi; [exact Hnd|].
      apply insert_message_inr in Hi as (Hf & ->).
      cbn [fst messages set_messages]. rewrite ids_snoc.
      cbn [bind_params m_id]. destruct (p_id p) as [i|]; [|now rewrite app_nil_r].
      cbn in Hf. apply NoDup_app. split; [exact Hnd|]. split.
      * intros x Hx Hx'. apply list_elem_of_In in Hx'. destruct Hx' as [<-|[]].
        apply has_id_ids in Hx. congruence.
      * apply NoDup_singleton.
    + rewrite (step_auth _ _ _ Ha). exact Hnd.
    + rewrite (step_other_object _ _ _ Ha Hm). exact Hnd.
  - unfold step, handler_of, on_close, modify. cbn.
    now destruct (truthy (currentUserId st ws)).
Qed.

Lemma run_ids_unique (st : State) (evs : list Event) :
  NoDup (ids (messages st)) → NoDup (ids (messages (fst (run st evs)))).
Proof.
  revert st. induction evs as [|ev evs IH]; intros st Hnd; [exact Hnd|].
  rewrite run_cons. apply IH. now apply step_ids_unique.
Qed.

Lemma has_id_self (p : Payload) (i : string) :
  p_id p = Some i → has_id [bind_params p] i = true.
Proof. intros H. cbn. rewrite H. cbn. now rewrite String.eqb_refl. Qed.

(** C2, as the server has it. With unique ids in the table: after a send
    with an id and a second send with the same id, the table has exactly
    one row of that id; the second send changes nothing and pushes nothing,
    and its insert raises the primary-key violation, which is caught and
    logged. *)
Theorem second_send_is_rejected
    (st : State) (ws ws' : Handle) (p1 p2 : Payload) (i : string) :
  NoDup (ids (messages st)) →
  type_is p1 "message" = true → p_id p1 = Some i →
  type_is p2 "message" = true → p_id p2 = Some i →
  let st1 := fst (step st (WsMessage ws (JsonObject p1))) in
  let r2 := step st1 (WsMessage ws' (JsonObject p2)) in
  count_id (messages (fst r2)) i = 1%nat
  ∧ fst r2 = st1
  ∧ snd r2 = [ConsoleError SqliteConstraintPrimaryKey].
Proof.
  intros Hnd Hm1 Hi1 Hm2 Hi2. cbn zeta.
  assert (H1 : ∃ st1, fst (step st (WsMessage ws (JsonObject p1))) = st1
                      ∧ has_id (messages st1) i = true
                      ∧ count_id (messages st1) i = 1%nat).
  { rewrite (step_message _ _ _ Hm1). unfold insert_message.
    cbn [bind_params m_id]. rewrite Hi1. cbn [id_stored].
    destruct (has_id (messages st) i) eqn:Hd;
      (eexists; split; [reflexivity|]); cbn [fst messages set_messages].
    - split; [exact Hd|]. now apply count_id_present.
    - rewrite has_id_app, count_id_app, (has_id_self _ _ Hi1), orb_true_r.
      split; [reflexivity|].
      rewrite (count_id_absent _ _ Hd). unfold count_id. cbn. rewrite Hi1. cbn.
      now rewrite String.eqb_refl. }
  destruct H1 as (st1 & -> & Hd1 & Hc1).
  rewrite (step_message _ _ _ Hm2), (insert_message_duplicate _ _ _ Hi2 Hd1).
  cbn. auto.
Qed.

Lemma second_send_is_rejected_witness :
  let p := mkPayload (Some "message"%string) None (Some "m1"%string)
             (Some "a1"%string) (Some "b1"%string) (Some "hi"%string) (Some 1000) in
  let st1 := fst (step init (WsMessage 1%nat (JsonObject p))) in
  let r2 := step st1 (WsMessage 1%nat (JsonObject p)) in
  count_id (messages (fst r2)) "m1" = 1%nat
  ∧ fst r2 = st1
  ∧ snd r2 = [ConsoleError SqliteConstraintPrimaryKey].
Proof.
  apply (second_send_is_rejected init 1%nat 1%nat
           (mkPayload (Some "message"%string) None (Some "m1"%string)
              (Some "a1"%string) (Some "b1"%string) (Some "hi"%string) (Some 1000))
           (mkPayload (Some "message"%string) None (Some "m1"%string)
              (Some "a1"%string) (Some "b1"%string) (Some "hi"%string) (Some 1000))
           "m1");
    first [ reflexivity | constructor ].
Defined.

(** C2 as the specification words it does not hold: the second send of an
    id is an error to the server, raised by the insert and logged. *)
Lemma second_send_raises :
  let frame := message_frame "m1" "a1" "b1" "hi" 1000 in
  let st1 := fst (run init [Connection 1%nat; WsMessage 1%nat frame]) in
  ¬ succeeds (snd (step st1 (WsMessage 1%nat frame))).
Proof. vm_compute. discriminate. Qed.

(** ** Sending to a receiver that is not registered *)

Lemma In_get_messages (db : list Message) (m : Message) (s r : string) :
  m_senderId m = Some s → m_receiverId m = Some r →
  In m db → In m (get_messages db s r).
Proof.
  intros Hs Hr Hin. unfold get_messages.
  eapply Permutation_in; [symmetry; apply order_by_timestamp_perm|].
  apply List.filter_In. split; [exact Hin|].
  unfold between. rewrite Hs, Hr. cbn. now rewrite !String.eqb_refl.
Qed.

(** C4. A send that reaches the lookup, its id being none of the stored
    ones, and whose receiver has no registry entry, adds its row with status
    ['sent'] and pushes and logs nothing; the row is in the answer of the
    history query of its sender and receiver, then and after any further
    operations. *)
Theorem offline_send_is_durable
    (st : State) (ws : Handle) (p : Payload) :
  type_is p "message" = true →
  id_stored (messages st) (p_id p) = false →
  userSockets st !! p_receiverId p = None →
  let r := step st (WsMessage ws (JsonObject p)) in
  snd r = []
  ∧ messages (fst r) = messages st ++ [bind_params p]
  ∧ m_status (bind_params p) = "sent"%string
  ∧ ∀ (s r' : string) (evs : list Event),
      p_senderId p = Some s → p_receiverId p = Some r' →
      In (bind_params p) (get_messages (messages (fst (run (fst r) evs))) s r').
Proof.
  intros Hm Hfresh Hoff. cbn zeta.
  rewrite (step_message _ _ _ Hm), (insert_message_fresh _ _ Hfresh).
  cbn [fst snd]. repeat split.
  - unfold pushes. now rewrite Hoff.
  - intros s r' evs Hs Hr. apply In_get_messages; [exact Hs|exact Hr|].
    destruct (run_grows (set_messages (messages st ++ [bind_params p]) st) evs)
      as (new & -> & _).
    cbn. apply in_or_app. left. apply in_or_app. right. now left.
Qed.

Lemma offline_send_is_durable_witness :
  let p := mkPayload (Some "message"%string) None (Some "m1"%string)
             (Some "a1"%string) (Some "b1"%string) (Some "hi"%string) (Some 1000) in
  let row := mkMessage (Some "m1"%string) (Some "a1"%string) (Some "b1"%string)
               (Some "hi"%string) (Some 1000) "sent" in
  let r := step init (WsMessage 1%nat (JsonObject p)) in
  snd r = []
  ∧ messages (fst r) = [row]
  ∧ In row (get_messages
              (messages (fst (run (fst r) [Connection 2%nat; WsClose 1%nat])))
              "a1" "b1").
Proof.
  destruct (offline_send_is_durable init 1%nat
              (mkPayload (Some "message"%string) None (Some "m1"%string)
                 (Some "a1"%string) (Some "b1"%string) (Some "hi"%string) (Some 1000))
              eq_refl eq_refl eq_refl) as (Hout & Hdb & _ & Hhist).
  split; [exact Hout|]. split; [exact Hdb|].
  exact (Hhist "a1"%string "b1"%string [Connection 2%nat; WsClose 1%nat]
           eq_refl eq_refl).
Defined.

(** ** Frames with a missing field *)

(** C5, as the server has it. A message-typed frame that lacks one of the
    five fields is not validated: unless its id is already stored, it is
    appended to the table with [NULL] in the place of each missing field and
    status ['sent'], and pushed as it came to the open socket registered for
    its receiver, if there is one; no exception is raised, nothing is
    logged, and nothing else is sent to any socket. *)
Theorem malformed_send_is_stored (st : State) (ws : Handle) (p : Payload) :
  type_is p "message" = true →
  (p_id p = None ∨ p_senderId p = None ∨ p_receiverId p = None
   ∨ p_content p = None ∨ p_timestamp p = None) →
  id_stored (messages st) (p_id p) = false →
  let r := step st (WsMessage ws (JsonObject p)) in
  fst r = set_messages (messages st ++ [bind_params p]) st
  ∧ snd r = pushes st p
  ∧ errors (snd r) = [].
Proof.
  intros Hm _ Hf. cbn zeta.
  rewrite (step_message _ _ _ Hm), (insert_message_fresh _ _ Hf).
  cbn [fst snd]. do 2 (split; [reflexivity|]).
  unfold pushes. destruct (userSockets st !! p_receiverId p) as [h|]; [|reflexivity].
  now destruct (is_open (readyState st h)).
Qed.

Lemma malformed_send_is_stored_witness :
  let st := fst (run init [Connection 1%nat; Connection 2%nat;
                           WsMessage 2%nat (auth_frame "b1")]) in
  let p := mkPayload (Some "message"%string) None (Some "m1"%string)
             (Some "a1"%string) (Some "b1"%string) None (Some 1000) in
  let r := step st (WsMessage 1%nat (JsonObject p)) in
  fst r = set_messages
            [mkMessage (Some "m1"%string) (Some "a1"%string) (Some "b1"%string)
               None (Some 1000) "sent"] st
  ∧ snd r = [Send 2%nat (mkOutFrame (Some "a1"%string) (Some "b1"%string) None
                           (Some "m1"%string) (Some 1000))]
  ∧ errors (snd r) = [].
Proof.
  destruct (malformed_send_is_stored
              (fst (run init [Connection 1%nat; Connection 2%nat;
                              WsMessage 2%nat (auth_frame "b1")]))
              1%nat
              (mkPayload (Some "message"%string) None (Some "m1"%string)
                 (Some "a1"%string) (Some "b1"%string) None (Some 1000))
              eq_refl
              (or_intror (or_intror (or_intror (or_introl eq_refl))))
              eq_refl) as (Hst & Hout & Herr).
  split; [exact Hst|]. split; [exact Hout|exact Herr].
Defined.

(** C5 as the specification words it does not hold: a frame without its
    content is stored, and nothing is reported to the socket that sent
    it. *)
Lemma malformed_send_is_not_reported :
  let st := fst (step init (Connection 1%nat)) in
  let bad := JsonObject (mkPayload (Some "message"%string) None (Some "m1"%string)
                           (Some "a1"%string) (Some "b1"%string) None (Some 1000)) in
  ¬ reported_to 1%nat (snd (step st (WsMessage 1%nat bad)))
  ∧ messages (fst (step st (WsMessage 1%nat bad))) ≠ messages st.
Proof. split; [vm_compute; intros [f []]|vm_compute; discriminate]. Qed.

(** ** Frames before the auth frame *)

(** C6, as the server has it. On a connection that has not authenticated, a
    frame that is not auth-typed leaves the registry and the connections as
    they are; if it is not message-typed either, the message table is
    unchanged and nothing is pushed; a message-typed frame is not ignored:
    unless its id is already stored it is appended to the table and pushed
    to the receiver as on any other connection. *)
Theorem pre_auth_frames (st : State) (ws : Handle) (d : Data) :
  currentUserId st ws = None →
  frame_type_is d "auth" = false →
  let r := step st (WsMessage ws d) in
  userSockets (fst r) = userSockets st
  ∧ conns (fst r) = conns st
  ∧ (frame_type_is d "message" = false →
     messages (fst r) = messages st ∧ sends (snd r) = [])
  ∧ (∀ p, d = JsonObject p → type_is p "message" = true →
       id_stored (messages st) (p_id p) = false →
       messages (fst r) = messages st ++ [bind_params p] ∧ snd r = pushes st p).
Proof.
  intros _ Ha. cbn zeta. destruct d as [| |p].
  - rewrite step_unparsable. cbn.
    do 3 (split; [auto|]). intros; discriminate.
  - rewrite step_json_null. cbn.
    do 3 (split; [auto|]). intros; discriminate.
  - cbn in Ha. destruct (type_is p "message") eqn:Hm.
    + rewrite (step_message _ _ _ Hm).
      destruct (insert_message (messages st) p) as [e|db'] eqn:Hi; cbn.
      * do 2 (split; [reflexivity|]). rewrite Hm.
        split; [discriminate|].
        intros p' [= <-] _ Hf.
        rewrite (insert_message_fresh _ _ Hf) in Hi. discriminate.
      * do 2 (split; [reflexivity|]). rewrite Hm.
        split; [discriminate|].
        intros p' [= <-] _ Hf.
        rewrite (insert_message_fresh _ _ Hf) in Hi.
        injection Hi as <-. split; reflexivity.
    + rewrite (step_other_object _ _ _ Ha Hm). cbn. rewrite Hm.
      do 3 (split; [auto|]).
      intros p' [= <-] Hm'. rewrite Hm in Hm'. discriminate.
Qed.

Lemma pre_auth_frames_witness :
  let st := fst (step init (Connection 1%nat)) in
  let d := message_frame "m1" "a1" "b1" "hi" 1000 in
  let r := step st (WsMessage 1%nat d) in
  userSockets (fst r) = userSockets st
  ∧ conns (fst r) = conns st
  ∧ (frame_type_is d "message" = false →
     messages (fst r) = messages st ∧ sends (snd r) = [])
  ∧ (∀ p, d = JsonObject p → type_is p "message" = true →
       id_stored (messages st) (p_id p) = false →
       messages (fst r) = messages st ++ [bind_params p] ∧ snd r = pushes st p).
Proof.
  apply (pre_auth_frames (fst (step init (Connection 1%nat))) 1%nat
           (message_frame "m1" "a1" "b1" "hi" 1000)); reflexivity.
Defined.

(** C6 as the specification words it does not hold: a message-typed frame
    on a connection that has not authenticated is stored. *)
Lemma pre_auth_message_is_stored :
  let st := fst (step init (Connection 1%nat)) in
  let st' := fst (step st (WsMessage 1%nat (message_frame "m1" "a1" "b1" "hi" 1000))) in
  currentUserId st 1%nat = None
  ∧ messages st' ≠ messages st.
Proof. split; [vm_compute; reflexivity | vm_compute; discriminate]. Qed.

(** ** Sending an id that is already stored *)

(** C9. A send whose id is already in the table changes nothing and pushes
    nothing, whether or not the receiver has an open registered socket: the
    exception of the insert ends the callback before the lookup, and is
    logged. *)
Theorem duplicate_send_is_not_pushed
    (st : State) (ws : Handle) (p : Payload) (i : string) :
  type_is p "message" = true →
  p_id p = Some i →
  has_id (messages st) i = true →
  let r := step st (WsMessage ws (JsonObject p)) in
  fst r = st ∧ sends (snd r) = [] ∧ ∃ e, snd r = [ConsoleError e].
Proof.
  intros Hm Hi Hd. cbn zeta. rewrite (step_message _ _ _ Hm).
  rewrite (insert_message_duplicate _ _ _ Hi Hd).
  cbn. eauto.
Qed.

Lemma duplicate_send_is_not_pushed_witness :
  let frame := mkPayload (Some "message"%string) None (Some "m1"%string)
                 (Some "a1"%string) (Some "b1"%string) (Some "hi"%string) (Some 1000) in
  let st := fst (run init [Connection 1%nat; Connection 2%nat;
                           WsMessage 2%nat (auth_frame "b1");
                           WsMessage 1%nat (JsonObject frame)]) in
  let r := step st (WsMessage 1%nat (JsonObject frame)) in
  (lookup st "b1" = Some 2%nat ∧ readyState st 2%nat = OPEN)
  ∧ fst r = st ∧ sends (snd r) = [] ∧ ∃ e, snd r = [ConsoleError e].
Proof.
  split; [split; vm_compute; reflexivity|].
  apply (duplicate_send_is_not_pushed
           (fst (run init [Connection 1%nat; Connection 2%nat;
                           WsMessage 2%nat (auth_frame "b1");
                           WsMessage 1%nat (JsonObject
                             (mkPayload (Some "message"%string) None (Some "m1"%string)
                                (Some "a1"%string) (Some "b1"%string) (Some "hi"%string)
                                (Some 1000)))]))
           1%nat
           (mkPayload (Some "message"%string) None (Some "m1"%string)
              (Some "a1"%string) (Some "b1"%string) (Some "hi"%string) (Some 1000))
           "m1"); vm_compute; reflexivity.
Defined.

(** ** The sender id of a frame *)

Lemma readyState_with_currentUserId
    (st : State) (ws h : Handle) (cu : option string) :
  readyState (with_currentUserId ws cu st) h = readyState st h.
Proof.
  unfold with_currentUserId, readyState at 1. cbn.
  destruct (decide (ws = h)) as [->|Hne].
  - now rewrite lookup_insert_eq.
  - now rewrite lookup_insert_ne.
Qed.

Lemma pushes_with_currentUserId
    (st : State) (ws : Handle) (cu : option string) (p : Payload) :
  pushes (with_currentUserId ws cu st) p = pushes st p.
Proof.
  unfold pushes. cbn.
  destruct (userSockets st !! p_receiverId p) as [h|]; [|reflexivity].
  now rewrite readyState_with_currentUserId.
Qed.

(** C10. Let the sending connection have any [currentUserId] [cu], or none.
    A message-typed frame then has the effect it has in every other case:
    the same message table, the same registry, the same pushes and log; the
    payload's sender id and [cu] are not compared. When the insert accepts
    the frame (five fields present, new id), the row stored has the id,
    sender, receiver, content and timestamp of the payload and status
    ['sent'], and the same five values are pushed to the receiver's
    registered socket when it is open. *)
Theorem sender_identity_unchecked
    (st : State) (ws : Handle) (cu : option string) (p : Payload) :
  type_is p "message" = true →
  let st_cu := with_currentUserId ws cu st in
  let res := step st (WsMessage ws (JsonObject p)) in
  let res_cu := step st_cu (WsMessage ws (JsonObject p)) in
  currentUserId st_cu ws = cu
  ∧ messages (fst res_cu) = messages (fst res)
  ∧ userSockets (fst res_cu) = userSockets (fst res)
  ∧ snd res_cu = snd res
  ∧ ∀ (i s r c : string) (t : Z),
      p_id p = Some i → p_senderId p = Some s → p_receiverId p = Some r →
      p_content p = Some c → p_timestamp p = Some t →
      has_id (messages st) i = false →
      messages (fst res_cu)
      = messages st ++ [mkMessage (Some i) (Some s) (Some r) (Some c) (Some t) "sent"]
      ∧ snd res_cu =
          match lookup st r with
          | Some h =>
              if is_open (readyState st h)
              then [Send h (mkOutFrame (Some s) (Some r) (Some c) (Some i) (Some t))]
              else []
          | None => []
          end.
Proof.
  intros Hm. cbn zeta. rewrite !(step_message _ _ _ Hm).
  rewrite pushes_with_currentUserId.
  change (messages (with_currentUserId ws cu st)) with (messages st).
  split.
  { unfold currentUserId, with_currentUserId. cbn. now rewrite lookup_insert_eq. }
  destruct (insert_message (messages st) p) as [e|db'] eqn:Hi; cbn [fst snd].
  - do 3 (split; [reflexivity|]).
    intros i s r c t Hi' Hs Hr Hc Ht Hf. exfalso.
    unfold insert_message in Hi. cbn [bind_params m_id] in Hi.
    rewrite Hi' in Hi. cbn in Hi. rewrite Hf in Hi. discriminate.
  - do 3 (split; [reflexivity|]).
    intros i s r c t Hi' Hs Hr Hc Ht Hf.
    unfold insert_message in Hi. cbn [bind_params m_id] in Hi.
    rewrite Hi' in Hi. cbn [id_stored] in Hi. rewrite Hf in Hi.
    injection Hi as <-. unfold bind_params. rewrite Hi', Hs, Hr, Hc, Ht.
    split; [reflexivity|].
    unfold pushes, payload_frame, lookup. now rewrite Hi', Hs, Hr, Hc, Ht.
Qed.

Lemma sender_identity_unchecked_witness :
  let st := fst (run init [Connection 1%nat; Connection 2%nat;
                           WsMessage 2%nat (auth_frame "b1")]) in
  let st_cu := with_currentUserId 1%nat (Some "mallory"%string) st in
  let res_cu := step st_cu (WsMessage 1%nat (message_frame "m1" "a1" "b1" "hi" 1000)) in
  currentUserId st_cu 1%nat = Some "mallory"%string
  ∧ messages (fst res_cu)
    = [mkMessage (Some "m1"%string) (Some "a1"%string) (Some "b1"%string)
         (Some "hi"%string) (Some 1000) "sent"]
  ∧ snd res_cu = [Send 2%nat (mkOutFrame (Some "a1"%string) (Some "b1"%string)
                                (Some "hi"%string) (Some "m1"%string) (Some 1000))].
Proof.
  destruct (sender_identity_unchecked
              (fst (run init [Connection 1%nat; Connection 2%nat;
                              WsMessage 2%nat (auth_frame "b1")]))
              1%nat (Some "mallory"%string)
              (mkPayload (Some "message"%string) None (Some "m1"%string)
                 (Some "a1"%string) (Some "b1"%string) (Some "hi"%string) (Some 1000))
              eq_refl) as (Hcu & _ & _ & _ & Hv).
  destruct (Hv "m1"%string "a1"%string "b1"%string "hi"%string 1000
              eq_refl eq_refl eq_refl eq_refl eq_refl eq_refl) as [Hdb Hout].
  split; [exact Hcu|]. split; [exact Hdb|exact Hout].
Defined.

(** * Further properties of the relay *)

(** ** Registering with an auth frame *)

Lemma step_close (st : State) (ws : Handle) :
  step st (WsClose ws) =
    (let st1 := set_conn ws (mkConn (currentUserId st ws) CLOSED) st in
     if truthy (currentUserId st ws)
     then set_userSockets (delete (currentUserId st ws) (userSockets st1)) st1
     else st1, []).
Proof. reflexivity. Qed.

Lemma currentUserId_set_conn (st : State) (ws : Handle) (c : Conn) :
  currentUserId (set_conn ws c st) ws = c_currentUserId c.
Proof. unfold currentUserId. cbn. now rewrite lookup_insert_eq. Qed.

Lemma currentUserId_set_userSockets
    (st : State) (r : gmap (option string) Handle) (ws : Handle) :
  currentUserId (set_userSockets r st) ws = currentUserId st ws.
Proof. reflexivity. Qed.

(** An auth frame with user id [u] on socket [ws] makes [ws] the socket of
    [u] and [u] the user of [ws], replaces whatever socket [u] had, leaves
    the entries of all other users and the message table alone, and answers
    nothing. *)
Theorem auth_registers (st : State) (ws : Handle) (p : Payload) (u : string) :
  type_is p "auth" = true →
  p_userId p = Some u →
  let res := step st (WsMessage ws (JsonObject p)) in
  lookup (fst res) u = Some ws
  ∧ currentUserId (fst res) ws = Some u
  ∧ (∀ v, v ≠ u → lookup (fst res) v = lookup st v)
  ∧ messages (fst res) = messages st
  ∧ snd res = [].
Proof.
  intros Ha Hu. cbn zeta. rewrite (step_auth _ _ _ Ha), Hu. cbn [fst snd].
  split; [|split; [|split; [|split; reflexivity]]].
  - unfold lookup. cbn. apply lookup_insert_eq.
  - unfold currentUserId. cbn. now rewrite lookup_insert_eq.
  - intros v Hv. unfold lookup. cbn. apply lookup_insert_ne. congruence.
Qed.

Lemma auth_registers_witness :
  let st := fst (run init [Connection 1%nat; Connection 2%nat;
                           WsMessage 1%nat (auth_frame "a1")]) in
  let res := step st (WsMessage 2%nat (auth_frame "a1")) in
  lookup (fst res) "a1" = Some 2%nat
  ∧ currentUserId (fst res) 2%nat = Some "a1"%string
  ∧ (∀ v, v ≠ "a1"%string → lookup (fst res) v = lookup st v)
  ∧ messages (fst res) = messages st
  ∧ snd res = [].
Proof.
  apply (auth_registers
           (fst (run init [Connection 1%nat; Connection 2%nat;
                           WsMessage 1%nat (auth_frame "a1")]))
           2%nat
           (mkPayload (Some "auth"%string) (Some "a1"%string) None None None None None)
           "a1"); reflexivity.
Defined.

(** A connection that authenticates a second time under another user id
    keeps its first registry entry: the close of the connection deletes
    only the entry of the last id, and the first id stays mapped to the
    closed socket. *)
Theorem reauth_leaves_stale_entry (st : State) (ws : Handle) (u1 u2 : string) :
  u1 ≠ u2 →
  u2 ≠ ""%string →
  let st1 := fst (step st (WsMessage ws (auth_frame u1))) in
  let st2 := fst (step st1 (WsMessage ws (auth_frame u2))) in
  let st3 := fst (step st2 (WsClose ws)) in
  lookup st2 u1 = Some ws ∧ lookup st2 u2 = Some ws
  ∧ lookup st3 u1 = Some ws ∧ lookup st3 u2 = None
  ∧ readyState st3 ws = CLOSED.
Proof.
  intros Hne Hu2. cbn zeta. rewrite !auth_frame_step. cbn [fst].
  rewrite step_close. cbn [fst].
  rewrite !currentUserId_set_userSockets, !currentUserId_set_conn.
  cbn [c_currentUserId].
  rewrite (truthy_nonempty u2 Hu2).
  unfold lookup, readyState. cbn.
  rewrite lookup_insert_eq.
  rewrite lookup_insert_ne by congruence. rewrite lookup_insert_eq.
  rewrite lookup_delete_ne by congruence.
  rewrite lookup_insert_ne by congruence. rewrite lookup_insert_eq.
  rewrite lookup_delete_eq. rewrite lookup_insert_eq.
  repeat split.
Qed.

Lemma reauth_leaves_stale_entry_witness :
  let st1 := fst (step init (WsMessage 1%nat (auth_frame "a1"))) in
  let st2 := fst (step st1 (WsMessage 1%nat (auth_frame "b1"))) in
  let st3 := fst (step st2 (WsClose 1%nat)) in
  lookup st2 "a1" = Some 1%nat ∧ lookup st2 "b1" = Some 1%nat
  ∧ lookup st3 "a1" = Some 1%nat ∧ lookup st3 "b1" = None
  ∧ readyState st3 1%nat = CLOSED.
Proof.
  apply (reauth_leaves_stale_entry init 1%nat "a1" "b1"); discriminate.
Defined.

(** The empty string is a falsy [currentUserId]: a socket registered under
    it is not unregistered by its close. *)
Theorem empty_user_id_survives_close (st : State) (ws : Handle) :
  let st1 := fst (step st (WsMessage ws (auth_frame ""))) in
  let st2 := fst (step st1 (WsClose ws)) in
  lookup st1 "" = Some ws
  ∧ lookup st2 "" = Some ws
  ∧ readyState st2 ws = CLOSED.
Proof.
  cbn zeta. rewrite auth_frame_step. cbn [fst]. rewrite step_close. cbn [fst].
  rewrite !currentUserId_set_userSockets, !currentUserId_set_conn.
  cbn [c_currentUserId truthy String.eqb negb].
  unfold lookup, readyState. cbn.
  rewrite !lookup_insert_eq. repeat split.
Qed.

(** ** Closing *)

(** The close of a connection that never authenticated changes no registry
    entry and no message; it only marks the socket closed. *)
Theorem close_unauthenticated (st : State) (ws : Handle) :
  currentUserId st ws = None →
  let res := step st (WsClose ws) in
  userSockets (fst res) = userSockets st
  ∧ messages (fst res) = messages st
  ∧ readyState (fst res) ws = CLOSED
  ∧ snd res = [].
Proof.
  intros Hc. cbn zeta. rewrite step_close, Hc. cbn.
  unfold readyState. cbn. rewrite lookup_insert_eq. repeat split.
Qed.

Lemma close_unauthenticated_witness :
  let st := fst (run init [Connection 1%nat; Connection 2%nat;
                           WsMessage 2%nat (auth_frame "b1")]) in
  let res := step st (WsClose 1%nat) in
  userSockets (fst res) = userSockets st
  ∧ messages (fst res) = messages st
  ∧ readyState (fst res) 1%nat = CLOSED
  ∧ snd res = [].
Proof.
  apply (close_unauthenticated
           (fst (run init [Connection 1%nat; Connection 2%nat;
                           WsMessage 2%nat (auth_frame "b1")])) 1%nat).
  vm_compute. reflexivity.
Defined.

(** A second close event of the same connection changes nothing more. *)
Theorem close_twice (st : State) (ws : Handle) :
  let st1 := fst (step st (WsClose ws)) in
  step st1 (WsClose ws) = (st1, []).
Proof.
  cbn zeta. rewrite !step_close. cbn [fst].
  destruct (truthy (currentUserId st ws)) eqn:Ht.
  - rewrite currentUserId_set_userSockets, currentUserId_set_conn.
    cbn [c_currentUserId]. rewrite Ht. f_equal.
    unfold set_userSockets, set_conn. cbn.
    now rewrite delete_delete_eq, insert_insert_eq.
  - rewrite currentUserId_set_conn. cbn [c_currentUserId]. rewrite Ht.
    f_equal. unfold set_conn. cbn. now rewrite insert_insert_eq.
Qed.

(** The other side of the unguarded delete: when two sockets authenticate
    as the same user and the newer one closes, the user has no registry
    entry although the older socket is still open and still bound to the
    user; a message to the user is then stored but not pushed. *)
Theorem older_connection_is_orphaned
    (st : State) (u : string) (h1 h2 ws : Handle) (i s c : string) (t : Z) :
  u ≠ ""%string → h1 ≠ h2 →
  readyState st h1 = OPEN →
  let st1 := fst (step st (WsMessage h1 (auth_frame u))) in
  let st2 := fst (step st1 (WsMessage h2 (auth_frame u))) in
  let st3 := fst (step st2 (WsClose h2)) in
  has_id (messages st) i = false →
  lookup st3 u = None
  ∧ currentUserId st3 h1 = Some u
  ∧ readyState st3 h1 = OPEN
  ∧ step st3 (WsMessage ws (message_frame i s u c t)) =
      (set_messages
         (messages st
          ++ [mkMessage (Some i) (Some s) (Some u) (Some c) (Some t) "sent"]) st3,
       []).
Proof.
  intros Hu Hne Hopen. cbn zeta. intros Hf.
  rewrite !auth_frame_step. cbn [fst]. rewrite step_close. cbn [fst].
  rewrite !currentUserId_set_userSockets, !currentUserId_set_conn.
  cbn [c_currentUserId]. rewrite (truthy_nonempty u Hu).
  match goal with |- context [step ?s _] => set (st3 := s) end.
  assert (Hl : lookup st3 u = None).
  { subst st3. unfold lookup. cbn. apply lookup_delete_eq. }
  split; [exact Hl|]. split; [|split].
  - subst st3. unfold currentUserId. cbn.
    rewrite lookup_insert_ne by congruence.
    rewrite lookup_insert_ne by congruence.
    now rewrite lookup_insert_eq.
  - subst st3. unfold readyState. cbn.
    rewrite lookup_insert_ne by congruence.
    rewrite lookup_insert_ne by congruence.
    rewrite lookup_insert_eq. exact Hopen.
  - unfold message_frame. rewrite step_message by reflexivity.
    rewrite insert_message_fresh by exact Hf.
    f_equal. unfold pushes. cbn [p_receiverId].
    unfold lookup in Hl. now rewrite Hl.
Qed.

Lemma older_connection_is_orphaned_witness :
  let st := fst (run init [Connection 1%nat; Connection 2%nat]) in
  let st1 := fst (step st (WsMessage 1%nat (auth_frame "b1"))) in
  let st2 := fst (step st1 (WsMessage 2%nat (auth_frame "b1"))) in
  let st3 := fst (step st2 (WsClose 2%nat)) in
  lookup st3 "b1" = None
  ∧ currentUserId st3 1%nat = Some "b1"%string
  ∧ readyState st3 1%nat = OPEN
  ∧ step st3 (WsMessage 3%nat (message_frame "m1" "a1" "b1" "hi" 1000)) =
      (set_messages
         (messages st
          ++ [mkMessage (Some "m1"%string) (Some "a1"%string) (Some "b1"%string)
                (Some "hi"%string) (Some 1000) "sent"]) st3,
       []).
Proof.
  apply (older_connection_is_orphaned
           (fst (run init [Connection 1%nat; Connection 2%nat]))
           "b1" 1%nat 2%nat 3%nat "m1" "a1" "hi" 1000);
    first [ discriminate | lia | vm_compute; reflexivity ].
Defined.

(** ** Pushing *)

(** A receiver that is registered but whose socket is not open gets no
    push: the message is stored and nothing is sent or logged. *)
Theorem push_needs_open_socket
    (st : State) (ws h : Handle) (p : Payload) :
  type_is p "message" = true →
  id_stored (messages st) (p_id p) = false →
  userSockets st !! p_receiverId p = Some h →
  readyState st h ≠ OPEN →
  step st (WsMessage ws (JsonObject p)) =
    (set_messages (messages st ++ [bind_params p]) st, []).
Proof.
  intros Hm Hf Hl Hr.
  rewrite (step_message _ _ _ Hm), (insert_message_fresh _ _ Hf).
  f_equal. unfold pushes. rewrite Hl.
  destruct (readyState st h); try reflexivity. now contradiction Hr.
Qed.

Lemma push_needs_open_socket_witness :
  let st := fst (run init [Connection 1%nat; Connection 2%nat;
                           WsMessage 2%nat (auth_frame "b1"); WsClosing 2%nat]) in
  step st (WsMessage 1%nat (message_frame "m1" "a1" "b1" "hi" 1000)) =
    (set_messages
       (messages st
        ++ [mkMessage (Some "m1"%string) (Some "a1"%string) (Some "b1"%string)
              (Some "hi"%string) (Some 1000) "sent"]) st,
     []).
Proof.
  apply (push_needs_open_socket
           (fst (run init [Connection 1%nat; Connection 2%nat;
                           WsMessage 2%nat (auth_frame "b1"); WsClosing 2%nat]))
           1%nat 2%nat
           (mkPayload (Some "message"%string) None (Some "m1"%string)
              (Some "a1"%string) (Some "b1"%string) (Some "hi"%string) (Some 1000)));
    first [ reflexivity | vm_compute; reflexivity | vm_compute; discriminate ].
Defined.

(** Authenticating and then being sent a message: once user [u] has
    authenticated on an open socket [h], a well-formed message with a new id
    addressed to [u], from any connection, is stored and pushed to [h] and
    to no other socket. *)
Theorem auth_then_send_delivers
    (st : State) (h ws : Handle) (u i s c : string) (t : Z) :
  readyState st h = OPEN →
  has_id (messages st) i = false →
  let st1 := fst (step st (WsMessage h (auth_frame u))) in
  let res := step st1 (WsMessage ws (message_frame i s u c t)) in
  messages (fst res)
  = messages st ++ [mkMessage (Some i) (Some s) (Some u) (Some c) (Some t) "sent"]
  ∧ snd res = [Send h (mkOutFrame (Some s) (Some u) (Some c) (Some i) (Some t))].
Proof.
  intros Ho Hf. cbn zeta. rewrite auth_frame_step. cbn [fst].
  unfold message_frame. rewrite step_message by reflexivity.
  rewrite insert_message_fresh by exact Hf.
  cbn [fst snd]. split; [reflexivity|].
  unfold pushes. cbn [p_receiverId userSockets set_userSockets set_conn].
  rewrite lookup_insert_eq.
  unfold readyState at 1. cbn. rewrite lookup_insert_eq. cbn.
  now rewrite Ho.
Qed.

Lemma auth_then_send_delivers_witness :
  let st := fst (run init [Connection 1%nat; Connection 2%nat]) in
  let st1 := fst (step st (WsMessage 2%nat (auth_frame "b1"))) in
  let res := step st1 (WsMessage 1%nat (message_frame "m1" "a1" "b1" "hi" 1000)) in
  messages (fst res)
  = messages st ++ [mkMessage (Some "m1"%string) (Some "a1"%string) (Some "b1"%string)
                      (Some "hi"%string) (Some 1000) "sent"]
  ∧ snd res = [Send 2%nat (mkOutFrame (Some "a1"%string) (Some "b1"%string)
                             (Some "hi"%string) (Some "m1"%string) (Some 1000))].
Proof.
  apply (auth_then_send_delivers
           (fst (run init [Connection 1%nat; Connection 2%nat]))
           2%nat 1%nat "b1" "m1" "a1" "hi" 1000); vm_compute; reflexivity.
Defined.

Lemma sends_pushes (st : State) (p : Payload) :
  sends (pushes st p) =
    match userSockets st !! p_receiverId p with
    | Some h => if is_open (readyState st h) then [(h, payload_frame p)] else []
    | None => []
    end.
Proof.
  unfold pushes. destruct (userSockets st !! p_receiverId p) as [h|]; [|reflexivity].
  now destruct (is_open (readyState st h)).
Qed.

Lemma errors_pushes (st : State) (p : Payload) : errors (pushes st p) = [].
Proof.
  unfold pushes. destruct (userSockets st !! p_receiverId p) as [h|]; [|reflexivity].
  now destruct (is_open (readyState st h)).
Qed.

Lemma is_open_OPEN (r : ReadyState) : is_open r = true → r = OPEN.
Proof. now destruct r. Qed.

(** No operation broadcasts. One event sends at most one frame, and a frame
    is only ever sent for a message-typed frame whose insert went through,
    to the socket registered for the payload's receiver, which is open, and
    it carries that payload. *)
Theorem at_most_one_push (st : State) (ev : Event) :
  (length (sends (snd (step st ev))) <= 1)%nat
  ∧ ∀ h f, In (h, f) (sends (snd (step st ev))) →
      ∃ ws p db',
        ev = WsMessage ws (JsonObject p)
        ∧ type_is p "message" = true
        ∧ insert_message (messages st) p = inr db'
        ∧ userSockets st !! p_receiverId p = Some h
        ∧ readyState st h = OPEN
        ∧ f = payload_frame p.
Proof.
  assert (Hnone : ∀ out, sends out = [] →
            (length (sends out) <= 1)%nat
            ∧ ∀ h f, In (h, f) (sends out) →
                ∃ ws p db',
                  ev = WsMessage ws (JsonObject p)
                  ∧ type_is p "message" = true
                  ∧ insert_message (messages st) p = inr db'
                  ∧ userSockets st !! p_receiverId p = Some h
                  ∧ readyState st h = OPEN
                  ∧ f = payload_frame p).
  { intros out ->. split; [cbn; lia|intros h f []]. }
  destruct ev as [ws|ws d|ws|ws|u o|u]; try (apply Hnone; reflexivity).
  destruct d as [| |p]; try (apply Hnone; reflexivity).
  destruct (type_cases p) as [[Hm|Ha]|[Ha Hm]].
  - rewrite (step_message _ _ _ Hm).
    destruct (insert_message (messages st) p) as [e|db'] eqn:Hi;
      [apply Hnone; reflexivity|].
    cbn [snd]. rewrite sends_pushes.
    destruct (userSockets st !! p_receiverId p) as [h0|] eqn:Hl;
      [|split; [cbn; lia|intros h f []]].
    destruct (is_open (readyState st h0)) eqn:Ho;
      [|split; [cbn; lia|intros h f []]].
    split; [cbn; lia|].
    intros h f [[= <- <-]|[]].
    exists ws, p, db'. repeat split; try assumption.
    now apply is_open_OPEN.
  - rewrite (step_auth _ _ _ Ha). apply Hnone. reflexivity.
  - rewrite (step_other_object _ _ _ Ha Hm). apply Hnone. reflexivity.
Qed.

(** Exception safety of the message callback: whenever an operation logs an
    error, the state after is exactly the state before and nothing was
    sent. *)
Theorem error_leaves_state (st : State) (ev : Event) :
  errors (snd (step st ev)) ≠ [] →
  fst (step st ev) = st ∧ sends (snd (step st ev)) = [].
Proof.
  destruct ev as [ws|ws d|ws|ws|u o|u]; try (intros H; now contradiction H).
  destruct d as [| |p]; try (intros _; split; reflexivity).
  destruct (type_cases p) as [[Hm|Ha]|[Ha Hm]].
  - rewrite (step_message _ _ _ Hm).
    destruct (insert_message (messages st) p) as [e|db'];
      [intros _; split; reflexivity|].
    cbn [snd]. rewrite errors_pushes. intros H. now contradiction H.
  - rewrite (step_auth _ _ _ Ha). intros H. now contradiction H.
  - rewrite (step_other_object _ _ _ Ha Hm). intros H. now contradiction H.
Qed.

Lemma error_leaves_state_witness :
  let st := fst (run init [Connection 1%nat;
                           WsMessage 1%nat (message_frame "m1" "a1" "b1" "hi" 1000)]) in
  let ev := WsMessage 1%nat (message_frame "m1" "a1" "b1" "hi" 1000) in
  fst (step st ev) = st ∧ sends (snd (step st ev)) = [].
Proof.
  apply (error_leaves_state
           (fst (run init [Connection 1%nat;
                           WsMessage 1%nat (message_frame "m1" "a1" "b1" "hi" 1000)]))
           (WsMessage 1%nat (message_frame "m1" "a1" "b1" "hi" 1000))).
  vm_compute. discriminate.
Defined.

(** ** Which operation writes what *)

(** The message table is written by message-typed frames only: every other
    event, auth frames, closes and queries included, leaves it as it is. *)
Theorem table_written_by_message_frames_only (st : State) (ev : Event) :
  (∀ ws d, ev = WsMessage ws d → frame_type_is d "message" = false) →
  messages (fst (step st ev)) = messages st.
Proof.
  intros H. destruct ev as [ws|ws d|ws|ws|u o|u]; try reflexivity.
  - specialize (H ws d eq_refl). destruct d as [| |p]; try reflexivity.
    cbn in H. destruct (type_is p "auth") eqn:Ha.
    + now rewrite (step_auth _ _ _ Ha).
    + now rewrite (step_other_object _ _ _ Ha H).
  - rewrite step_close. cbn.
    now destruct (truthy (currentUserId st ws)).
Qed.

Lemma table_written_by_message_frames_only_witness :
  let st := fst (run init [Connection 1%nat;
                           WsMessage 1%nat (message_frame "m1" "a1" "b1" "hi" 1000)]) in
  messages (fst (step st (WsMessage 1%nat (auth_frame "a1")))) = messages st.
Proof.
  apply (table_written_by_message_frames_only
           (fst (run init [Connection 1%nat;
                           WsMessage 1%nat (message_frame "m1" "a1" "b1" "hi" 1000)]))
           (WsMessage 1%nat (auth_frame "a1"))).
  intros ws d [= <- <-]. reflexivity.
Defined.

(** The registry is written by auth-typed frames and by closes only: a
    message-typed frame, whatever its sender and receiver ids, registers and
    unregisters nobody. *)
Theorem registry_written_by_auth_and_close_only (st : State) (ev : Event) :
  (∀ ws d, ev = WsMessage ws d → frame_type_is d "auth" = false) →
  (∀ ws, ev ≠ WsClose ws) →
  userSockets (fst (step st ev)) = userSockets st.
Proof.
  intros H Hc. destruct ev as [ws|ws d|ws|ws|u o|u]; try reflexivity.
  - specialize (H ws d eq_refl). destruct d as [| |p]; try reflexivity.
    cbn in H. destruct (type_is p "message") eqn:Hm.
    + rewrite (step_message _ _ _ Hm).
      now destruct (insert_message (messages st) p).
    + now rewrite (step_other_object _ _ _ H Hm).
  - now contradiction (Hc ws).
Qed.

Lemma registry_written_by_auth_and_close_only_witness :
  let st := fst (run init [Connection 1%nat; WsMessage 1%nat (auth_frame "a1")]) in
  userSockets (fst (step st (WsMessage 1%nat (message_frame "m1" "zz" "a1" "hi" 1000))))
  = userSockets st.
Proof.
  apply (registry_written_by_auth_and_close_only
           (fst (run init [Connection 1%nat; WsMessage 1%nat (auth_frame "a1")]))
           (WsMessage 1%nat (message_frame "m1" "zz" "a1" "hi" 1000))).
  - intros ws d [= <- <-]. reflexivity.
  - intros ws. discriminate.
Defined.

(** ** Ids and queries over reachable states *)

Lemma ids_filter_sublist (f : Message → bool) (db : list Message) :
  sublist (ids (List.filter f db)) (ids db).
Proof.
  unfold ids. induction db as [|x db IH]; [constructor|].
  cbn [List.filter omap list_omap].
  destruct (f x); cbn [omap list_omap]; destruct (m_id x);
    first [ now constructor | exact IH ].
Qed.

Lemma bind_params_without_id (p : Payload) (db : list Message) :
  p_id p = None → id_stored db (p_id p) = false.
Proof. now intros ->. Qed.

(** Starting from an empty table, whatever the clients send, no two stored
    messages share an id and no history answer lists an id twice, where an
    id is a key that is not [NULL]. The key does not cover frames without
    an id: such a frame is stored again every time it is sent. *)
Theorem reachable_ids_unique (evs : list Event) (userId otherId : string) :
  NoDup (ids (messages (fst (run init evs))))
  ∧ NoDup (ids (get_messages (messages (fst (run init evs))) userId otherId))
  ∧ ∀ ws p, type_is p "message" = true → p_id p = None →
      let st := fst (run init evs) in
      let st1 := fst (step st (WsMessage ws (JsonObject p))) in
      let st2 := fst (step st1 (WsMessage ws (JsonObject p))) in
      messages st2 = messages st ++ [bind_params p; bind_params p].
Proof.
  assert (H : NoDup (ids (messages (fst (run init evs))))).
  { apply run_ids_unique. cbn. constructor. }
  split; [exact H|]. split.
  - unfold get_messages, ids.
    assert (Hp : omap m_id (order_by_timestamp
                   (List.filter (between userId otherId) (messages (fst (run init evs)))))
                 ≡ₚ omap m_id (List.filter (between userId otherId)
                                 (messages (fst (run init evs))))).
    { apply omap_Permutation. apply order_by_timestamp_perm. }
    rewrite Hp. eapply sublist_NoDup; [exact H|apply ids_filter_sublist].
  - intros ws p Hm Hi. cbn zeta.
    rewrite !(step_message _ _ _ Hm).
    rewrite insert_message_fresh by now apply bind_params_without_id.
    cbn [fst messages set_messages].
    rewrite insert_message_fresh by now apply bind_params_without_id.
    cbn [fst messages set_messages]. now rewrite <- app_assoc.
Qed.

Lemma get_messages_In (db : list Message) (userId otherId : string) (m : Message) :
  In m (get_messages db userId otherId) ↔ In m db ∧ between userId otherId m = true.
Proof.
  unfold get_messages. rewrite <- List.filter_In. split; intros H.
  - eapply Permutation_in; [apply order_by_timestamp_perm|exact H].
  - eapply Permutation_in; [symmetry; apply order_by_timestamp_perm|exact H].
Qed.

Lemma between_true (userId otherId : string) (m : Message) :
  between userId otherId m = true ↔
  (m_senderId m = Some userId ∧ m_receiverId m = Some otherId)
  ∨ (m_senderId m = Some otherId ∧ m_receiverId m = Some userId).
Proof.
  unfold between. rewrite orb_true_iff, !andb_true_iff, !col_eq_Some. tauto.
Qed.

(** Export and histories. A row is in the export of [userId] when
    [userId] is its sender or its receiver; it is in a history of [userId]
    exactly when, besides, the other of the two is not [NULL]. So the
    histories of a user are all in the export, and the export has, on top
    of them, the rows stored from frames that lacked the sender or the
    receiver. *)
Theorem export_and_histories (db : list Message) (userId : string) (m : Message) :
  (In m (get_export db userId) ↔
     In m db ∧ (m_senderId m = Some userId ∨ m_receiverId m = Some userId))
  ∧ (∀ otherId, In m (get_messages db userId otherId) ↔
       In m db
       ∧ ((m_senderId m = Some userId ∧ m_receiverId m = Some otherId)
          ∨ (m_senderId m = Some otherId ∧ m_receiverId m = Some userId)))
  ∧ ((∃ otherId, In m (get_messages db userId otherId)) ↔
       In m (get_export db userId)
       ∧ m_senderId m ≠ None ∧ m_receiverId m ≠ None).
Proof.
  assert (Hexp : In m (get_export db userId) ↔
            In m db ∧ (m_senderId m = Some userId ∨ m_receiverId m = Some userId)).
  { unfold get_export. now rewrite List.filter_In, orb_true_iff, !col_eq_Some. }
  assert (Hhist : ∀ o, In m (get_messages db userId o) ↔
            In m db
            ∧ ((m_senderId m = Some userId ∧ m_receiverId m = Some o)
               ∨ (m_senderId m = Some o ∧ m_receiverId m = Some userId))).
  { intros o. now rewrite get_messages_In, between_true. }
  split; [exact Hexp|]. split; [exact Hhist|].
  rewrite Hexp. split.
  - intros (o & Ho). apply Hhist in Ho as (Hin & [[Hs Hr]|[Hs Hr]]);
      rewrite Hs, Hr; repeat split; auto; discriminate.
  - intros ((Hin & [Hs|Hr]) & Hns & Hnr).
    + destruct (m_receiverId m) as [o|] eqn:Er; [|congruence].
      exists o. apply Hhist. auto.
    + destruct (m_senderId m) as [o|] eqn:Es; [|congruence].
      exists o. apply Hhist. auto.
Qed.

(** * Properties of the account and contact routes *)

(** ** Registering and logging in *)

Lemma sql_eq_true (a b : option string) :
  sql_eq a b = true ↔ ∃ s, a = Some s ∧ b = Some s.
Proof.
  destruct a as [x|], b as [y|]; cbn.
  - rewrite String.eqb_eq. split.
    + intros ->. eauto.
    + intros (s & [= ->] & [= ->]). reflexivity.
  - split; [discriminate|]. intros (s & _ & [=]).
  - split; [discriminate|]. intros (s & [=] & _).
  - split; [discriminate|]. intros (s & [=] & _).
Qed.

Lemma sql_eq_false (a b : option string) :
  sql_eq a b = false ↔ ∀ s, a = Some s → b ≠ Some s.
Proof.
  split.
  - intros H s Ha Hb. subst. cbn in H. now rewrite String.eqb_refl in H.
  - intros H. destruct (sql_eq a b) eqn:E; [|reflexivity].
    apply sql_eq_true in E as (s & Ha & Hb). now destruct (H s Ha).
Qed.

Lemma find_never {A} (p : A → bool) (l : list A) :
  (∀ x, p x = false) → find p l = None.
Proof.
  intros H. induction l as [|x l IH]; [reflexivity|]. cbn. now rewrite H.
Qed.

Lemma user_conflicts_true (us : list User) (row : User) :
  user_conflicts us row = true ↔ ∃ u, In u us ∧ collides u row.
Proof.
  unfold user_conflicts, collides. rewrite existsb_exists.
  split; intros (u & Hu & H); exists u; (split; [exact Hu|]).
  - apply orb_true_iff in H as [H|H]; [apply orb_true_iff in H as [H|H]|].
    + left. now apply String.eqb_eq.
    + right. left. now apply sql_eq_true.
    + right. right. now apply sql_eq_true.
  - destruct H as [H|[H|H]].
    + apply String.eqb_eq in H. now rewrite H.
    + apply sql_eq_true in H. rewrite H. now rewrite orb_true_r.
    + apply sql_eq_true in H. rewrite H. now rewrite orb_true_r.
Qed.

Lemma user_conflicts_false (us : list User) (row : User) :
  user_conflicts us row = false ↔ ∀ u, In u us → ¬ collides u row.
Proof.
  split.
  - intros H u Hu Hc.
    assert (user_conflicts us row = true) by (apply user_conflicts_true; eauto).
    congruence.
  - intros H. destruct (user_conflicts us row) eqn:E; [|reflexivity].
    apply user_conflicts_true in E as (u & Hu & Hc). now destruct (H u Hu).
Qed.

Lemma select_login_new (us : list User) (row : User) (e pw : string) :
  u_email row = Some e → u_password row = Some pw →
  (∀ u, In u us → u_email u ≠ Some e) →
  select_login (us ++ [row]) (Some e) (Some pw) = Some row.
Proof.
  intros He Hp H. unfold select_login. induction us as [|x us IH]; cbn.
  - rewrite He, Hp. cbn. now rewrite !String.eqb_refl.
  - assert (Hx : sql_eq (u_email x) (Some e) = false).
    { apply sql_eq_false. intros s Hs [= ->]. apply (H x); [now left|exact Hs]. }
    rewrite Hx. cbn. apply IH. intros u Hu. apply H. now right.
Qed.

(** Registration is refused, with status 400 and the text "Username or
    email already exists" and nothing stored, exactly when a stored user has
    the drawn id, or the given user name, or the given email. A missing
    field is no reason to refuse: the account is then stored with [NULL] in
    its place, and the answer is success without the key. *)
Theorem register_rejects
    (t : Tables) (id : string) (now : Z) (username email password : option string) :
  let row := mkUser id username email password None (Some "dark"%string) now in
  ((∃ u, In u (users t) ∧ collides u row) →
   api_register id now username email password t
   = (t, JsonError 400 "Username or email already exists"))
  ∧ ((∀ u, In u (users t) → ¬ collides u row) →
     api_register id now username email password t
     = (set_users (users t ++ [row]) t,
        JsonSuccessUser
          (mkPublicUser id (of_body username) (of_body email) (Text "dark")))).
Proof.
  cbn zeta. unfold api_register, insert_user, bind_user. split; intros H.
  - apply user_conflicts_true in H. now rewrite H.
  - apply user_conflicts_false in H. now rewrite H.
Qed.

Lemma register_rejects_witness :
  let t := fst (api_register "u1" 5 (Some "ann"%string) (Some "ann@x"%string)
                  (Some "pw"%string) no_tables) in
  api_register "u2" 6 (Some "bob"%string) (Some "ann@x"%string) (Some "pw2"%string) t
  = (t, JsonError 400 "Username or email already exists")
  ∧ api_register "u3" 7 None (Some "cat@x"%string) None t
    = (set_users
         (users t ++ [mkUser "u3" None (Some "cat@x"%string) None None
                        (Some "dark"%string) 7]) t,
       JsonSuccessUser (mkPublicUser "u3" Omitted (Text "cat@x") (Text "dark"))).
Proof.
  split.
  - apply (register_rejects
             (fst (api_register "u1" 5 (Some "ann"%string) (Some "ann@x"%string)
                     (Some "pw"%string) no_tables))
             "u2" 6 (Some "bob"%string) (Some "ann@x"%string) (Some "pw2"%string)).
    exists (mkUser "u1" (Some "ann"%string) (Some "ann@x"%string) (Some "pw"%string)
              None (Some "dark"%string) 5).
    split; [left; reflexivity|]. right. right. exists "ann@x"%string. now split.
  - apply (register_rejects
             (fst (api_register "u1" 5 (Some "ann"%string) (Some "ann@x"%string)
                     (Some "pw"%string) no_tables))
             "u3" 7 None (Some "cat@x"%string) None).
    intros u [<-|[]] [H|[(n & _ & H)|(e & H1 & H2)]]; try discriminate.
    cbn in H1, H2. congruence.
Defined.

(** Registration followed by login. When no stored user has the drawn id,
    the user name or the email, registration appends the account with theme
    ['dark'], leaves the contacts alone and answers with the public fields
    of the account; a login with the same email and password then gets the
    same answer. *)
Theorem register_then_login
    (t : Tables) (id : string) (now : Z) (n e pw : string) :
  (∀ u, In u (users t) →
     u_id u ≠ id ∧ u_username u ≠ Some n ∧ u_email u ≠ Some e) →
  let r := api_register id now (Some n) (Some e) (Some pw) t in
  users (fst r)
  = users t ++ [mkUser id (Some n) (Some e) (Some pw) None (Some "dark"%string) now]
  ∧ contacts (fst r) = contacts t
  ∧ snd r = JsonSuccessUser (mkPublicUser id (Text n) (Text e) (Text "dark"))
  ∧ api_login (Some e) (Some pw) (fst r) = snd r.
Proof.
  intros H. cbn zeta. unfold api_register, insert_user, bind_user.
  set (row := mkUser id (Some n) (Some e) (Some pw) None (Some "dark"%string) now).
  assert (E : user_conflicts (users t) row = false).
  { apply user_conflicts_false. intros u Hu Hc. destruct (H u Hu) as (H1 & H2 & H3).
    destruct Hc as [Hc|[(x & Hx & [= <-])|(x & Hx & [= <-])]]; auto. }
  rewrite E. cbn [fst snd users contacts set_users of_body].
  do 3 (split; [reflexivity|]).
  unfold api_login. cbn [users set_users].
  rewrite (select_login_new (users t) row e pw); [reflexivity..|].
  intros u Hu. now destruct (H u Hu) as (_ & _ & ?).
Qed.

Lemma register_then_login_witness :
  let r := api_register "u1" 5 (Some "ann"%string) (Some "ann@x"%string)
             (Some "pw"%string) no_tables in
  users (fst r)
  = users no_tables
    ++ [mkUser "u1" (Some "ann"%string) (Some "ann@x"%string) (Some "pw"%string)
          None (Some "dark"%string) 5]
  ∧ contacts (fst r) = contacts no_tables
  ∧ snd r = JsonSuccessUser (mkPublicUser "u1" (Text "ann") (Text "ann@x") (Text "dark"))
  ∧ api_login (Some "ann@x"%string) (Some "pw"%string) (fst r) = snd r.
Proof.
  apply (register_then_login no_tables "u1" 5 "ann" "ann@x" "pw").
  intros u [].
Defined.

(** Login answers with the public fields of a stored user that has the
    email and the password, compared as stored, or else with status 401 and
    "Invalid credentials", the same for an unknown email and for a wrong
    password; a login without email or without password is answered 401 as
    well. *)
Theorem login_outcome (t : Tables) (email password : string) :
  ((∃ u, In u (users t) ∧ u_email u = Some email ∧ u_password u = Some password
         ∧ api_login (Some email) (Some password) t = JsonSuccessUser (public u))
   ∨ ((∀ u, In u (users t) →
         ¬ (u_email u = Some email ∧ u_password u = Some password))
      ∧ api_login (Some email) (Some password) t
        = JsonError 401 "Invalid credentials"))
  ∧ (∀ o, api_login None o t = JsonError 401 "Invalid credentials"
          ∧ api_login o None t = JsonError 401 "Invalid credentials").
Proof.
  split.
  - unfold api_login, select_login.
    destruct (find _ (users t)) as [u|] eqn:E.
    + left. apply find_some in E as [Hu E]. apply andb_true_iff in E as [E1 E2].
      apply sql_eq_true in E1 as (s1 & H1 & [= <-]).
      apply sql_eq_true in E2 as (s2 & H2 & [= <-]). exists u. auto.
    + right. split; [|reflexivity]. intros u Hu [E1 E2].
      pose proof (find_none _ _ E u Hu) as Hn. cbn in Hn.
      rewrite E1, E2 in Hn. cbn in Hn. rewrite !String.eqb_refl in Hn. discriminate.
  - intros o. unfold api_login, select_login.
    rewrite !find_never; [auto| |].
    + intros x. destruct (u_password x); cbn; apply andb_false_r.
    + intros x. now destruct (u_email x).
Qed.

(** ** The theme *)

Lemma find_map_invariant {A} (p : A → bool) (f : A → A) (l : list A) :
  (∀ x, p (f x) = p x) → find p (map f l) = option_map f (find p l).
Proof.
  intros H. induction l as [|x l IH]; [reflexivity|].
  cbn. rewrite H. now destruct (p x).
Qed.

(** A theme update changes what a login answers in the theme only, and only
    for the user with the given id: every login that succeeded before still
    succeeds, every login that failed still fails. An update without a
    theme sets the theme to [null]. *)
Theorem theme_then_login
    (t : Tables) (userId : string) (theme email password : option string) :
  api_login email password (fst (api_theme (Some userId) theme t)) =
    match api_login email password t with
    | JsonSuccessUser pu =>
        JsonSuccessUser
          (if String.eqb (pu_id pu) userId
           then mkPublicUser (pu_id pu) (pu_username pu) (pu_email pu) (of_column theme)
           else pu)
    | other => other
    end.
Proof.
  unfold api_login, api_theme. cbn [fst users set_users].
  unfold select_login. rewrite find_map_invariant.
  - destruct (find _ (users t)) as [u|]; [|reflexivity].
    cbn. unfold public. now destruct (String.eqb (u_id u) userId).
  - intros x. now destruct (String.eqb (u_id x) userId).
Qed.

(** A theme update for an id that no user has, or without an id, is
    answered with success and changes nothing. *)
Theorem theme_unknown_user (t : Tables) (userId : string) (theme : option string) :
  (∀ u, In u (users t) → u_id u ≠ userId) →
  api_theme (Some userId) theme t = (t, JsonSuccess)
  ∧ api_theme None theme t = (t, JsonSuccess).
Proof.
  intros H. split; [|reflexivity].
  unfold api_theme, set_users. destruct t as [us cs]. cbn in *.
  f_equal. f_equal. rewrite <- (map_id us) at 2.
  apply map_ext_in. intros u Hu.
  apply H in Hu. apply String.eqb_neq in Hu. now rewrite Hu.
Qed.

Lemma theme_unknown_user_witness :
  let t := fst (api_register "u1" 5 (Some "ann"%string) (Some "ann@x"%string)
                  (Some "pw"%string) no_tables) in
  api_theme (Some "nobody"%string) (Some "light"%string) t = (t, JsonSuccess)
  ∧ api_theme None (Some "light"%string) t = (t, JsonSuccess).
Proof.
  apply (theme_unknown_user
           (fst (api_register "u1" 5 (Some "ann"%string) (Some "ann@x"%string)
                   (Some "pw"%string) no_tables))
           "nobody" (Some "light"%string)).
  intros u [<-|[]]. discriminate.
Defined.

(** ** What the routes keep *)

Lemma map_theme_account (userId : string) (theme : option string) (us : list User) :
  map account_of
    (map (λ u, if String.eqb (u_id u) userId then set_theme theme u else u) us)
  = map account_of us.
Proof.
  rewrite map_map. apply map_ext. intros u.
  now destruct (String.eqb (u_id u) userId).
Qed.

Lemma contacts_add_users (t : Tables) (userId contactEmail : option string) :
  users (fst (api_contacts_add userId contactEmail t)) = users t.
Proof.
  unfold api_contacts_add.
  destruct (find _ _) as [c|]; [|reflexivity].
  destruct (same_id _ _); [reflexivity|].
  destruct (insert_contact _ _ _) as [cs1|]; [|reflexivity].
  now destruct (insert_contact _ _ _).
Qed.

Lemma respond_accounts (t : Tables) (r : Request) :
  ∃ new, map account_of (users (fst (respond t r))) = map account_of (users t) ++ new.
Proof.
  assert (Hsame : ∀ t', users t' = users t →
            ∃ new, map account_of (users t') = map account_of (users t) ++ new).
  { intros t' ->. exists []. now rewrite app_nil_r. }
  destruct r as [id now n e pw|e pw|uid e|uid|uid th]; cbn [respond fst].
  - unfold api_register, insert_user.
    destruct (user_conflicts _ _); [apply Hsame; reflexivity|].
    cbn. eexists. apply map_app.
  - apply Hsame. reflexivity.
  - apply Hsame. apply contacts_add_users.
  - apply Hsame. reflexivity.
  - unfold api_theme. destruct uid as [uid|]; [|apply Hsame; reflexivity].
    cbn. exists []. rewrite app_nil_r. apply map_theme_account.
Qed.

(** No sequence of requests deletes an account or changes its id, user
    name, email, password, avatar or [lastSeen]: the accounts after are the
    accounts before, in place, followed by the new ones. Only the theme of
    an account can change; a login does not refresh [lastSeen]. *)
Theorem accounts_are_kept (t : Tables) (rs : list Request) :
  ∃ new, map account_of (users (serve t rs)) = map account_of (users t) ++ new.
Proof.
  revert t. induction rs as [|r rs IH]; intros t; cbn [serve].
  - exists []. now rewrite app_nil_r.
  - destruct (respond_accounts t r) as (new1 & H1).
    destruct (IH (fst (respond t r))) as (new2 & H2).
    exists (new1 ++ new2). rewrite H2, H1. symmetry. apply app_assoc.
Qed.

Lemma NoDup_omap_snoc {A B} (f : A → option B) (l : list A) (x : A) :
  NoDup (omap f l) →
  (∀ y b, In y l → f y = Some b → f x ≠ Some b) →
  NoDup (omap f (l ++ [x])).
Proof.
  intros Hnd Hx. rewrite omap_app. apply NoDup_app. split; [exact Hnd|]. split.
  - intros b Hb Hb'. cbn in Hb'. destruct (f x) as [b'|] eqn:E; [|inversion Hb'].
    apply list_elem_of_In in Hb'. destruct Hb' as [<-|[]].
    apply list_elem_of_omap in Hb as (y & Hy & Hfy).
    apply list_elem_of_In in Hy. now apply (Hx y b' Hy Hfy).
  - cbn. destruct (f x); [apply NoDup_singleton|constructor].
Qed.

Lemma NoDup_map_omap {A B} (f : A → B) (l : list A) :
  NoDup (map f l) ↔ NoDup (omap (λ x, Some (f x)) l).
Proof.
  assert (H : omap (λ x, Some (f x)) l = map f l).
  { induction l as [|x l IH]; [reflexivity|]. cbn. now rewrite IH. }
  now rewrite H.
Qed.

Lemma omap_set_theme (g : User → option string) (uid : string)
    (th : option string) (l : list User) :
  (∀ x, g (set_theme th x) = g x) →
  omap g (map (λ u, if String.eqb (u_id u) uid then set_theme th u else u) l)
  = omap g l.
Proof.
  intros Hg. induction l as [|x l IH]; [reflexivity|].
  cbn. rewrite IH. destruct (String.eqb (u_id x) uid); rewrite ?Hg; reflexivity.
Qed.

Lemma respond_users_unique (t : Tables) (r : Request) :
  users_unique (users t) → users_unique (users (fst (respond t r))).
Proof.
  intros Hu.
  destruct r as [id now n e pw|e pw|uid e|uid|uid th]; cbn [respond fst];
    try exact Hu.
  - unfold api_register, insert_user.
    destruct (user_conflicts _ _) eqn:Ec; [exact Hu|].
    pose proof (proj1 (user_conflicts_false _ _) Ec) as Hf.
    destruct Hu as (H1 & H2 & H3). cbn [fst users set_users].
    split; [|split].
    + apply NoDup_map_omap. apply NoDup_omap_snoc; [now apply NoDup_map_omap|].
      intros y b Hy [= <-] [= E]. apply (Hf y Hy). left. now symmetry.
    + apply NoDup_omap_snoc; [exact H2|].
      intros y b Hy Hb E. apply (Hf y Hy). right. left. eauto.
    + apply NoDup_omap_snoc; [exact H3|].
      intros y b Hy Hb E. apply (Hf y Hy). right. right. eauto.
  - now rewrite contacts_add_users.
  - unfold api_theme. destruct uid as [uid|]; [|exact Hu].
    cbn [fst users set_users]. destruct Hu as (H1 & H2 & H3).
    unfold users_unique. rewrite map_map.
    rewrite (map_ext (λ x, u_id (if String.eqb (u_id x) uid then set_theme th x else x)) u_id)
      by (intros x; now destruct (String.eqb (u_id x) uid)).
    rewrite !omap_set_theme by reflexivity. auto.
Qed.

(** The ids of the accounts stay pairwise different under every sequence of
    requests, and so do the user names and the emails that are not [NULL];
    accounts registered without a user name or without an email can be
    many. *)
Theorem users_stay_unique (t : Tables) (rs : list Request) :
  users_unique (users t) → users_unique (users (serve t rs)).
Proof.
  revert t. induction rs as [|r rs IH]; intros t Hu; cbn [serve]; [exact Hu|].
  apply IH. now apply respond_users_unique.
Qed.

Lemma users_stay_unique_witness :
  users_unique
    (users (serve no_tables
              [PostRegister "u1" 5 (Some "ann"%string) (Some "ann@x"%string) (Some "pw"%string);
               PostRegister "u2" 6 None (Some "bob@x"%string) (Some "pw"%string);
               PostRegister "u3" 7 None None (Some "pw"%string)])).
Proof.
  apply (users_stay_unique no_tables).
  repeat split; constructor.
Defined.

(** ** Contacts *)

Lemma has_contact_true (cs : list (option string * option string))
    (a b : option string) :
  has_contact cs a b = true ↔
  ∃ x y, a = Some x ∧ b = Some y ∧ In (Some x, Some y) cs.
Proof.
  unfold has_contact. rewrite existsb_exists. split.
  - intros ([c1 c2] & Hin & E). cbn in E. apply andb_true_iff in E as [E1 E2].
    apply sql_eq_true in E1 as (x & -> & ->).
    apply sql_eq_true in E2 as (y & -> & ->). eauto.
  - intros (x & y & -> & -> & H). exists (Some x, Some y). split; [exact H|].
    cbn. now rewrite !String.eqb_refl.
Qed.

Lemma has_contact_None (cs : list (option string * option string))
    (a : option string) :
  has_contact cs None a = false ∧ has_contact cs a None = false.
Proof.
  split; (destruct (has_contact _ _ _) eqn:E; [|reflexivity]);
    apply has_contact_true in E as (x & y & H1 & H2 & _); discriminate.
Qed.

Lemma same_id_false (id : string) (userId : option string) :
  same_id id userId = false ↔ userId ≠ Some id.
Proof.
  destruct userId as [uid|]; cbn; [|split; [discriminate|reflexivity]].
  rewrite String.eqb_neq. split; congruence.
Qed.

(** On a table that holds every pair in both directions, the route either
    adds the two directions of a new pair or changes nothing. *)
Lemma contacts_add_cases (t : Tables) (userId contactEmail : option string) :
  contacts_mutual (contacts t) →
  (∃ c,
      find (λ u, sql_eq (u_email u) contactEmail) (users t) = Some c
      ∧ userId ≠ Some (u_id c)
      ∧ has_contact (contacts t) userId (Some (u_id c)) = false
      ∧ api_contacts_add userId contactEmail t
        = (set_contacts
             (contacts t ++ [(userId, Some (u_id c)); (Some (u_id c), userId)]) t,
           JsonSuccess))
  ∨ (fst (api_contacts_add userId contactEmail t) = t
     ∧ snd (api_contacts_add userId contactEmail t) ≠ JsonSuccess).
Proof.
  intros Hm. unfold api_contacts_add.
  destruct (find _ (users t)) as [c|] eqn:Ef;
    [|right; split; [reflexivity|discriminate]].
  destruct (same_id (u_id c) userId) eqn:Eid;
    [right; split; [reflexivity|discriminate]|].
  apply same_id_false in Eid.
  unfold insert_contact.
  destruct (has_contact (contacts t) userId (Some (u_id c))) eqn:E1;
    [right; split; [reflexivity|discriminate]|].
  assert (E2 : has_contact (contacts t ++ [(userId, Some (u_id c))])
                 (Some (u_id c)) userId = false).
  { destruct (has_contact _ (Some (u_id c)) userId) eqn:E; [|reflexivity].
    apply has_contact_true in E as (x & y & [= <-] & -> & H).
    apply in_app_or in H as [H|[H|[]]].
    - apply Hm in H.
      assert (has_contact (contacts t) (Some y) (Some (u_id c)) = true)
        by (apply has_contact_true; eauto).
      congruence.
    - injection H as H1 H2. congruence. }
  rewrite E2. left. exists c.
  do 3 (split; [first [reflexivity|assumption]|]).
  now rewrite <- app_assoc.
Qed.



Lemma keyed_filter_snoc (cs : list (option string * option string))
    (userId : option string) (cid : string) :
  List.filter keyed (cs ++ [(userId, Some cid); (Some cid, userId)])
  = List.filter keyed cs
    ++ match userId with
       | Some uid => [(Some uid, Some cid); (Some cid, Some uid)]
       | None => []
       end.
Proof. rewrite List.filter_app. now destruct userId. Qed.

Lemma respond_contacts_invariant (t : Tables) (r : Request) :
  contacts_mutual (contacts t) ∧ contacts_irreflexive (contacts t)
  ∧ NoDup (List.filter keyed (contacts t)) →
  contacts_mutual (contacts (fst (respond t r)))
  ∧ contacts_irreflexive (contacts (fst (respond t r)))
  ∧ NoDup (List.filter keyed (contacts (fst (respond t r)))).
Proof.
  intros (Hm & Hi & Hn).
  destruct r as [id now n e pw|e pw|uid e|uid|uid th]; cbn [respond fst];
    try (split; [exact Hm|split; [exact Hi|exact Hn]]).
  - unfold api_register. destruct (insert_user _ _) as [us'|];
      (split; [exact Hm|split; [exact Hi|exact Hn]]).
  - destruct (contacts_add_cases t uid e Hm)
      as [(c & _ & Hne & H1 & ->)|[-> _]];
      [|split; [exact Hm|split; [exact Hi|exact Hn]]].
    cbn [fst contacts set_contacts]. split; [|split].
    + intros a b H. apply in_app_or in H as [H|[H|[H|[]]]]; apply in_or_app.
      * left. now apply Hm.
      * injection H as <- <-. right. right. now left.
      * injection H as <- <-. right. now left.
    + intros a H. apply in_app_or in H as [H|[H|[H|[]]]].
      * now apply (Hi a).
      * injection H as H3 H4. congruence.
      * injection H as H3 H4. congruence.
    + rewrite keyed_filter_snoc. destruct uid as [u|]; [|now rewrite app_nil_r].
      assert (Hn1 : ¬ In (Some u, Some (u_id c)) (contacts t)).
      { intros H. assert (has_contact (contacts t) (Some u) (Some (u_id c)) = true)
          by (apply has_contact_true; eauto). congruence. }
      assert (Hn2 : ¬ In (Some (u_id c), Some u) (contacts t))
        by (intros H; apply Hn1, Hm, H).
      apply NoDup_app. split; [exact Hn|]. split.
      * intros x Hx Hx'. apply list_elem_of_In in Hx, Hx'.
        apply List.filter_In in Hx as [Hx _].
        destruct Hx' as [<-|[<-|[]]]; auto.
      * apply NoDup_cons. split; [|apply NoDup_singleton].
        intros H. apply list_elem_of_In in H. destruct H as [H|[]].
        injection H as H3 H4. congruence.
  - unfold api_theme. destruct uid as [uid'|];
      (split; [exact Hm|split; [exact Hi|exact Hn]]).
Qed.

(** Starting from empty tables, whatever is requested, the contact table
    holds every pair together with its reverse, never a user paired with
    itself, and no pair of two ids twice. *)
Theorem contacts_stay_mutual (rs : list Request) :
  contacts_mutual (contacts (serve no_tables rs))
  ∧ contacts_irreflexive (contacts (serve no_tables rs))
  ∧ NoDup (List.filter keyed (contacts (serve no_tables rs))).
Proof.
  assert (H : ∀ t,
            contacts_mutual (contacts t) ∧ contacts_irreflexive (contacts t)
            ∧ NoDup (List.filter keyed (contacts t)) →
            contacts_mutual (contacts (serve t rs))
            ∧ contacts_irreflexive (contacts (serve t rs))
            ∧ NoDup (List.filter keyed (contacts (serve t rs)))).
  { induction rs as [|r rs IH]; intros t Ht; cbn [serve]; [exact Ht|].
    apply IH. now apply respond_contacts_invariant. }
  apply H. cbn. split; [intros a b []|split; [intros a []|constructor]].
Qed.

Lemma contacts_add_success (t : Tables) (userId contactEmail : option string) :
  snd (api_contacts_add userId contactEmail t) = JsonSuccess →
  ∃ c,
    find (λ u, sql_eq (u_email u) contactEmail) (users t) = Some c
    ∧ same_id (u_id c) userId = false
    ∧ fst (api_contacts_add userId contactEmail t)
      = set_contacts
          ((contacts t ++ [(userId, Some (u_id c))]) ++ [(Some (u_id c), userId)]) t.
Proof.
  unfold api_contacts_add.
  destruct (find _ (users t)) as [c|] eqn:Ef; [|discriminate].
  destruct (same_id (u_id c) userId) eqn:Eid; [discriminate|].
  unfold insert_contact.
  destruct (has_contact (contacts t) userId (Some (u_id c))); [discriminate|].
  destruct (has_contact _ (Some (u_id c)) userId); [discriminate|].
  intros _. exists c. auto.
Qed.

(** Repeating an add that succeeded: with a [userId] it is refused with
    status 400 and "Contact already added" and changes nothing; without a
    [userId] it succeeds again and appends the two rows again. *)
Theorem contacts_add_twice (t : Tables) (userId contactEmail : option string) :
  snd (api_contacts_add userId contactEmail t) = JsonSuccess →
  let t1 := fst (api_contacts_add userId contactEmail t) in
  ∃ c, find (λ u, sql_eq (u_email u) contactEmail) (users t) = Some c
    ∧ api_contacts_add userId contactEmail t1
      = match userId with
        | Some _ => (t1, JsonError 400 "Contact already added")
        | None =>
            (set_contacts
               (contacts t1 ++ [(None, Some (u_id c)); (Some (u_id c), None)]) t1,
             JsonSuccess)
        end.
Proof.
  intros H. cbn zeta.
  apply contacts_add_success in H as (c & Ef & Eid & ->).
  exists c. split; [exact Ef|].
  unfold api_contacts_add. cbn [users set_contacts contacts]. rewrite Ef, Eid.
  unfold insert_contact. destruct userId as [uid|].
  - assert (H : has_contact
                  ((contacts t ++ [(Some uid, Some (u_id c))])
                   ++ [(Some (u_id c), Some uid)])
                  (Some uid) (Some (u_id c)) = true).
    { apply has_contact_true. exists uid, (u_id c). do 2 (split; [reflexivity|]).
      apply in_or_app. left. apply in_or_app. right. now left. }
    now rewrite H.
  - rewrite (proj1 (has_contact_None _ _)), (proj2 (has_contact_None _ _)).
    unfold set_contacts. cbn. now rewrite <- !app_assoc.
Qed.

Lemma contacts_add_twice_witness :
  let t := serve no_tables
             [PostRegister "u1" 5 (Some "ann"%string) (Some "ann@x"%string) (Some "pw"%string);
              PostRegister "u2" 6 (Some "bob"%string) (Some "bob@x"%string) (Some "pw"%string)] in
  let t1 := fst (api_contacts_add (Some "u1"%string) (Some "bob@x"%string) t) in
  ∃ c, find (λ u, sql_eq (u_email u) (Some "bob@x"%string)) (users t) = Some c
    ∧ api_contacts_add (Some "u1"%string) (Some "bob@x"%string) t1
      = (t1, JsonError 400 "Contact already added").
Proof.
  apply (contacts_add_twice
           (serve no_tables
              [PostRegister "u1" 5 (Some "ann"%string) (Some "ann@x"%string) (Some "pw"%string);
               PostRegister "u2" 6 (Some "bob"%string) (Some "bob@x"%string) (Some "pw"%string)])
           (Some "u1"%string) (Some "bob@x"%string)).
  reflexivity.
Defined.

(** ** The contact list *)

Lemma insert_contact_row_perm (c : option string * option string)
    (l : list (option string * option string)) :
  Permutation (insert_contact_row c l) (c :: l).
Proof.
  induction l as [|x l IH]; cbn; [reflexivity|].
  destruct (key_leb (snd c) (snd x)); [reflexivity|].
  rewrite IH. apply perm_swap.
Qed.





Lemma string_leb_trans (a b c : string) :
  String.leb a b = true → String.leb b c = true → String.leb a c = true.
Proof.
  unfold String.leb. revert b c.
  induction a as [|x a IH]; intros [|y b] [|z c]; cbn;
    try reflexivity; try discriminate.
  unfold Ascii.compare.
  destruct (N.compare_spec (Ascii.N_of_ascii x) (Ascii.N_of_ascii y)),
    (N.compare_spec (Ascii.N_of_ascii y) (Ascii.N_of_ascii z)),
    (N.compare_spec (Ascii.N_of_ascii x) (Ascii.N_of_ascii z));
    intros Hab Hbc; try discriminate; try reflexivity; try lia.
  now apply (IH b c).
Qed.

Lemma string_leb_refl (a : string) : String.leb a a = true.
Proof. now destruct (String.leb_total a a). Qed.

Lemma key_leb_trans (a b c : option string) :
  key_leb a b = true → key_leb b c = true → key_leb a c = true.
Proof.
  destruct a, b, c; cbn; try discriminate; try reflexivity.
  apply string_leb_trans.
Qed.

Lemma key_leb_total (a b : option string) :
  key_leb a b = false → key_leb b a = true.
Proof.
  destruct a as [x|], b as [y|]; cbn; try discriminate; try reflexivity.
  destruct (String.leb_total x y) as [H|H]; [congruence|auto].
Qed.

Lemma insert_contact_row_sorted (c : option string * option string)
    (l : list (option string * option string)) :
  StronglySorted (λ a b, key_leb (snd a) (snd b) = true) l →
  StronglySorted (λ a b, key_leb (snd a) (snd b) = true) (insert_contact_row c l).
Proof.
  induction 1 as [|x l Hs IH Hx]; cbn.
  - repeat constructor.
  - destruct (key_leb (snd c) (snd x)) eqn:Hle.
    + constructor; [constructor; assumption|].
      constructor; [exact Hle|].
      eapply Forall_impl; [exact Hx|].
      intros y Hy. cbn in Hy. now apply (key_leb_trans _ (snd x)).
    + apply key_leb_total in Hle.
      constructor; [exact IH|].
      eapply Permutation_Forall; [symmetry; apply insert_contact_row_perm|].
      constructor; [exact Hle|exact Hx].
Qed.

Lemma by_contactId_sorted (l : list (option string * option string)) :
  StronglySorted (λ a b, key_leb (snd a) (snd b) = true) (by_contactId l).
Proof.
  induction l as [|c l IH]; cbn; [constructor|].
  now apply insert_contact_row_sorted.
Qed.

Lemma StronglySorted_append {A} (R : A → A → Prop) (l1 l2 : list A) :
  StronglySorted R l1 → StronglySorted R l2 →
  (∀ a b, In a l1 → In b l2 → R a b) →
  StronglySorted R (l1 ++ l2).
Proof.
  intros H1 H2 H. induction H1 as [|x l1 Hs IH Hx]; [exact H2|].
  cbn. constructor.
  - apply IH. intros a b Ha Hb. apply H; [now right|exact Hb].
  - apply Forall_app. split; [exact Hx|].
    apply Forall_forall. intros b Hb. apply list_elem_of_In in Hb.
    apply H; [now left|exact Hb].
Qed.

(** The contact list comes in the order of the contacts' ids, byte by byte,
    whatever the order in which the contacts were added. *)
Theorem contacts_listed_by_id (t : Tables) (userId : string) :
  StronglySorted (λ a b, String.leb (ci_id a) (ci_id b) = true)
                 (get_contacts t userId).
Proof.
  unfold get_contacts.
  pose proof (by_contactId_sorted
                (List.filter (λ c, col_eq (fst c) userId) (contacts t))) as Hs.
  set (join := λ c : option string * option string,
         map contact_info
           (List.filter (λ u, sql_eq (Some (u_id u)) (snd c)) (users t))).
  assert (Hjoin : ∀ c ci, In ci (join c) → snd c = Some (ci_id ci)).
  { intros c ci Hci. subst join. cbn beta in Hci.
    apply in_map_iff in Hci as (u & <- & Hu).
    apply List.filter_In in Hu as [_ E].
    apply sql_eq_true in E as (s & [= <-] & ->). reflexivity. }
  induction Hs as [|c l Hs IH Hc]; cbn [flat_map]; [constructor|].
  apply StronglySorted_append; [|exact IH|].
  - assert (Hsame : ∀ a b, In a (join c) → In b (join c) →
              String.leb (ci_id a) (ci_id b) = true).
    { intros a b Ha Hb. apply Hjoin in Ha, Hb. rewrite Ha in Hb.
      injection Hb as ->. apply string_leb_refl. }
    induction (join c) as [|a l' IHl]; [constructor|].
    constructor.
    + apply IHl. intros x y Hx Hy. apply Hsame; now right.
    + apply Forall_forall. intros b Hb. apply list_elem_of_In in Hb.
      apply Hsame; [now left|now right].
  - intros a b Ha Hb. apply in_flat_map in Hb as (c' & Hc' & Hb).
    apply Hjoin in Ha, Hb.
    rewrite Forall_forall in Hc. apply list_elem_of_In in Hc'.
    specialize (Hc c' Hc'). cbn in Hc. rewrite Ha, Hb in Hc. exact Hc.
Qed.
